(** * talko: the wire protocol of [protocol.py]

    A shallow embedding of the serialization engine of [protocol.py]
    ([_parse_field], [_Serializable.to_json], [_Serializable.from_json])
    and of the sixteen dataclasses it declares, followed by the
    properties of the engine.

    Python values are one inductive type; exceptions are an error
    monad; the introspection interface ([dataclasses.fields]) is a
    table from classes to their ordered, typed fields. *)

From Stdlib Require Import String List ZArith Bool Permutation.
Import ListNotations.
Local Open Scope string_scope.
Local Open Scope list_scope.
Set Warnings "-notation-for-abbreviation".

(** ** Exceptions and the error monad *)

(** The exceptions the engine can raise.
    - [KeyError k]: [json[k]] on a dict without key [k];
    - [AttributeError a]: attribute [a] looked up on an object that has
      none ([int.from_json], [str.__args__], ...);
    - [TypeError]: subscripting a value that is not a dict with a field
      name, a constructor call with wrong keywords, [asdict] on a value
      that is no dataclass instance. *)
Inductive exn : Type :=
| KeyError (key : string)
| AttributeError (attr : string)
| TypeError.

Inductive result (A : Type) : Type :=
| Ok (a : A)
| Raise (e : exn).
Arguments Ok {A} a.
Arguments Raise {A} e.

Definition bind {A B : Type} (m : result A) (k : A -> result B) : result B :=
  match m with
  | Ok a => k a
  | Raise e => Raise e
  end.

Notation "x <- m ;; k" := (bind m (fun x => k))
  (at level 61, m at next level, right associativity).

(** A list comprehension [[f(v) for v in l]]: elements are evaluated
    left to right and the first exception aborts the whole. *)
Fixpoint mapM {A B : Type} (f : A -> result B) (l : list A) : result (list B) :=
  match l with
  | [] => Ok []
  | a :: l' => b <- f a ;; bs <- mapM f l' ;; Ok (b :: bs)
  end.

Definition raises {A : Type} (m : result A) : Prop := exists e, m = Raise e.

Section Engine.

(** The record classes (subclasses of [_Serializable]). *)
Variable class : Type.

(** ** Declared field types

    What [field.type] can be: [int], [str], [List[arg]], or one of the
    record classes. *)
Inductive ty : Type :=
| TInt
| TStr
| TList (arg : ty)
| TCls (c : class).

(** One entry of [dataclasses.fields(cls)]. *)
Record field : Type := mkfield { f_name : string; f_type : ty }.

(** ** Python values

    Wire values are what [json.loads] yields: [None], booleans,
    integers, strings, lists and dicts with string keys.  [VObj c a]
    is an instance of dataclass [c] whose attributes are [a].  A dict
    is the list of its items in insertion order; its keys are looked
    up from the front. *)
Unset Elimination Schemes.
Inductive value : Type :=
| VNone
| VBool (b : bool)
| VInt (n : Z)
| VStr (s : string)
| VList (l : list value)
| VDict (d : list (string * value))
| VObj (c : class) (attrs : list (string * value)).
Set Elimination Schemes.

Definition dict : Type := list (string * value).

(** [d.get(k)] *)
Fixpoint dict_get (d : dict) (k : string) : option value :=
  match d with
  | [] => None
  | (k', v) :: d' => if String.eqb k k' then Some v else dict_get d' k
  end.

(** [d[k] = v]: an existing key keeps its place, a new one goes last. *)
Fixpoint dict_set (d : dict) (k : string) (v : value) : dict :=
  match d with
  | [] => [(k, v)]
  | (k', v') :: d' =>
      if String.eqb k k' then (k', v) :: d' else (k', v') :: dict_set d' k v
  end.

Definition keys (d : dict) : list string := map fst d.

(** [isinstance(value, dict)] and [isinstance(value, list)] *)
Definition is_dict (v : value) : bool :=
  match v with VDict _ => true | _ => false end.
Definition is_list (v : value) : bool :=
  match v with VList _ => true | _ => false end.

(** ** The introspection interface

    [fields c] is [dataclasses.fields(c)], in declaration order.  The
    names of one class are pairwise distinct (they are the keys of
    the class's annotations). *)
Record schema : Type := mkschema {
  fields : class -> list field;
  class_eq_dec : forall c c' : class, {c = c'} + {c <> c'};
  fields_nodup : forall c, NoDup (map f_name (fields c))
}.

Variable S : schema.

Definition names (c : class) : list string := map f_name (fields S c).

(** [type_.__args__[0]]: only [List[arg]] has [__args__]. *)
Definition args0 (type_ : ty) : result ty :=
  match type_ with
  | TList arg => Ok arg
  | _ => Raise (AttributeError "__args__")
  end.

(** [type_.from_json]: only the record classes have the method (on
    [List[arg]] the lookup is delegated to [list], which has none). *)
Definition attr_from_json (type_ : ty) : result class :=
  match type_ with
  | TCls c => Ok c
  | _ => Raise (AttributeError "from_json")
  end.

(** [json[key]] *)
Definition getitem (json : value) (key : string) : result value :=
  match json with
  | VDict d =>
      match dict_get d key with
      | Some v => Ok v
      | None => Raise (KeyError key)
      end
  | _ => Raise TypeError
  end.

(** The call of [cls] with the keywords [kwargs], that is the
    [__init__] that [dataclass] generates: every keyword must be a
    field, every field must be given, and the attributes are set in
    declaration order. *)
Definition new (cls : class) (kwargs : dict) : result value :=
  if forallb (fun k => existsb (String.eqb k) (names cls)) (keys kwargs)
  then
    attrs <- mapM (fun name =>
               match dict_get kwargs name with
               | Some v => Ok (name, v)
               | None => Raise TypeError
               end) (names cls) ;;
    Ok (VObj cls attrs)
  else Raise TypeError.

(** ** [_Serializable.from_json]

    The function recurses on [json]: the subscript [json[field.name]],
    the loop over the fields and the list comprehension are written
    as local loops so that every recursive call is on a value found
    inside [json].  [from_json_eq] below restates it in the shape of
    the source. *)
Fixpoint from_json (cls : class) (json : value) {struct json} : result value :=
  match json with
  | VDict d =>
      kwargs <-
        (fix for_ (fs : list field) (kwargs : dict) {struct fs} : result dict :=
           match fs with
           | [] => Ok kwargs
           | fld :: fs' =>
               x <-
                 (fix subscript (items : dict) {struct items} : result value :=
                    match items with
                    | [] => Raise (KeyError (f_name fld))
                    | (k, val) :: items' =>
                        if String.eqb (f_name fld) k then
                          match val with
                          | VList l =>
                              type_ <- args0 (f_type fld) ;;
                              xs <-
                                (fix comp (l : list value) : result (list value) :=
                                   match l with
                                   | [] => Ok []
                                   | v :: l' =>
                                       y <- match v with
                                            | VDict _ =>
                                                c <- attr_from_json type_ ;;
                                                from_json c v
                                            | _ => Ok v
                                            end ;;
                                       ys <- comp l' ;;
                                       Ok (y :: ys)
                                   end) l ;;
                              Ok (VList xs)
                          | VDict _ =>
                              c <- attr_from_json (f_type fld) ;;
                              from_json c val
                          | _ => Ok val
                          end
                        else subscript items'
                    end) d ;;
               for_ fs' (dict_set kwargs (f_name fld) x)
           end) (fields S cls) [] ;;
      new cls kwargs
  | _ =>
      match fields S cls with
      | [] => new cls []
      | _ :: _ => Raise TypeError
      end
  end.

(** [_parse_field(type_, value)] *)
Definition _parse_field (type_ : ty) (val : value) : result value :=
  if is_dict val
  then c <- attr_from_json type_ ;; from_json c val
  else Ok val.

(** The two branches of the loop body of [from_json], for a field of
    declared type [type_] whose wire value is [val]. *)
Definition parse_value (type_ : ty) (val : value) : result value :=
  match val with
  | VList l =>
      type_ <- args0 type_ ;;
      xs <- mapM (_parse_field type_) l ;;
      Ok (VList xs)
  | _ => _parse_field type_ val
  end.

(** One iteration of the loop of [from_json]: the value bound to
    [kwargs[field.name]]. *)
Definition resolve (json : value) (fld : field) : result value :=
  val <- getitem json (f_name fld) ;;
  parse_value (f_type fld) val.

(** The loop of [from_json] over the remaining fields [fs], threading
    [kwargs]. *)
Fixpoint for_fields (json : value) (fs : list field) (kwargs : dict)
  : result dict :=
  match fs with
  | [] => Ok kwargs
  | fld :: fs' =>
      x <- resolve json fld ;;
      for_fields json fs' (dict_set kwargs (f_name fld) x)
  end.

(** ** [_Serializable.to_json]

    [dataclasses._asdict_inner]: an instance becomes the dict of its
    fields, each read with [getattr] and converted in turn; lists and
    dicts are converted element by element; anything else is copied. *)
Fixpoint _asdict_inner (obj : value) {struct obj} : result value :=
  match obj with
  | VObj c attrs =>
      items <-
        (fix for_ (fs : list field) : result dict :=
           match fs with
           | [] => Ok []
           | f :: fs' =>
               v <-
                 (fix getattr_ (a : dict) : result value :=
                    match a with
                    | [] => Raise (AttributeError (f_name f))
                    | (k, x) :: a' =>
                        if String.eqb (f_name f) k
                        then _asdict_inner x
                        else getattr_ a'
                    end) attrs ;;
               rest <- for_ fs' ;;
               Ok ((f_name f, v) :: rest)
           end) (fields S c) ;;
      Ok (VDict items)
  | VList l =>
      xs <-
        (fix each (l : list value) : result (list value) :=
           match l with
           | [] => Ok []
           | v :: l' => y <- _asdict_inner v ;; ys <- each l' ;; Ok (y :: ys)
           end) l ;;
      Ok (VList xs)
  | VDict d =>
      items <-
        (fix each (d : dict) : result dict :=
           match d with
           | [] => Ok []
           | (k, v) :: d' =>
               y <- _asdict_inner v ;; ys <- each d' ;; Ok ((k, y) :: ys)
           end) d ;;
      Ok (VDict items)
  | _ => Ok obj
  end.

(** [getattr(obj, name)] *)
Definition getattr (obj : value) (name : string) : result value :=
  match obj with
  | VObj _ attrs =>
      match dict_get attrs name with
      | Some v => Ok v
      | None => Raise (AttributeError name)
      end
  | _ => Raise (AttributeError name)
  end.

(** [self.to_json()], that is [dataclasses.asdict(self)], which
    refuses what is not a dataclass instance. *)
Definition to_json (self : value) : result value :=
  match self with
  | VObj _ _ => _asdict_inner self
  | _ => Raise TypeError
  end.


(** ** Validly constructed instances

    [has_type v t]: the Python value [v] is of the declared type [t]
    ([bool] is a subclass of [int]).  An instance of a record class
    holds exactly the declared fields, in declaration order, each of
    its declared type. *)
Fixpoint has_type (v : value) (t : ty) {struct v} : bool :=
  match v, t with
  | VInt _, TInt => true
  | VBool _, TInt => true
  | VStr _, TStr => true
  | VList l, TList arg => forallb (fun x => has_type x arg) l
  | VObj c attrs, TCls c' =>
      if class_eq_dec S c c' then
        (fix each (a : dict) (fs : list field) {struct a} : bool :=
           match a, fs with
           | [], [] => true
           | (k, x) :: a', f :: fs' =>
               String.eqb k (f_name f) && has_type x (f_type f) && each a' fs'
           | _, _ => false
           end) attrs (fields S c)
      else false
  | _, _ => false
  end.

(** The attributes [a] are those of the fields [fs], name by name and
    type by type. *)
Fixpoint attrs_typed (a : dict) (fs : list field) : bool :=
  match a, fs with
  | [], [] => true
  | (k, x) :: a', f :: fs' =>
      String.eqb k (f_name f) && has_type x (f_type f) && attrs_typed a' fs'
  | _, _ => false
  end.

(** The type vocabulary of the declarations: an integer, a string, a
    record, or a sequence of one of these. *)
Definition scalar (t : ty) : bool :=
  match t with
  | TList _ => false
  | _ => true
  end.

Definition supported (t : ty) : bool :=
  match t with
  | TList arg => scalar arg
  | _ => true
  end.

Definition schema_supported : Prop :=
  forall c f, In f (fields S c) -> supported (f_type f) = true.

(** A wire value that is neither a mapping nor a sequence. *)
Definition primitive (v : value) : bool :=
  negb (is_dict v) && negb (is_list v).

(** The loop of [from_json] resolves the fields one after the other
    and stores each result under the field's name. *)
Definition store_all (kwargs : dict) (nxs : list (string * value)) : dict :=
  fold_left (fun kw nx => dict_set kw (fst nx) (snd nx)) nxs kwargs.

(** The item [asdict] makes of field [f] of an instance with
    attributes [a]. *)
Definition asdict_item (c : class) (a : dict) (f : field)
  : result (string * value) :=
  x <- getattr (VObj c a) (f_name f) ;;
  v <- _asdict_inner x ;;
  Ok (f_name f, v).

(** What the round trip gives for one value [v] of declared type [t]
    whose encoding is [w]: as a sequence element or record field it is
    read back by [_parse_field], as a field by [parse_value]. *)
Definition reads_back (v : value) : Prop :=
  forall t w, has_type v t = true -> _asdict_inner v = Ok w ->
    (scalar t = true -> _parse_field t w = Ok v) /\
    (supported t = true -> parse_value t w = Ok v).

(** ** Shapes of wire values *)

(** A JSON value: what [json.loads] yields, with no dataclass instance
    anywhere inside. *)
Fixpoint is_wire (v : value) {struct v} : bool :=
  match v with
  | VList l => forallb is_wire l
  | VDict d => forallb (fun kv => match kv with (_, x) => is_wire x end) d
  | VObj _ _ => false
  | _ => true
  end.

(** [conforms v t]: the wire value [v] has the shape of the declared
    type [t]: an integer, a string, a list of conforming elements, or
    a mapping that holds a conforming value under every declared field
    name (in any order, other keys allowed). *)
Fixpoint conforms (v : value) (t : ty) {struct v} : bool :=
  match v, t with
  | VInt _, TInt => true
  | VBool _, TInt => true
  | VStr _, TStr => true
  | VList l, TList arg => forallb (fun x => conforms x arg) l
  | VDict d, TCls c =>
      forallb (fun f =>
        (fix find (items : dict) {struct items} : bool :=
           match items with
           | [] => false
           | (k, x) :: items' =>
               if String.eqb (f_name f) k then conforms x (f_type f)
               else find items'
           end) d) (fields S c)
  | _, _ => false
  end.

(** [canonical v t]: the wire value [v] is shaped like an encoding of
    an instance of [t]: its mappings hold exactly the declared field
    names, in declaration order. *)
Fixpoint canonical (v : value) (t : ty) {struct v} : bool :=
  match v, t with
  | VInt _, TInt => true
  | VBool _, TInt => true
  | VStr _, TStr => true
  | VList l, TList arg => forallb (fun x => canonical x arg) l
  | VDict d, TCls c =>
      (fix each (a : dict) (fs : list field) {struct a} : bool :=
         match a, fs with
         | [], [] => true
         | (k, x) :: a', f :: fs' =>
             String.eqb k (f_name f) && canonical x (f_type f) && each a' fs'
         | _, _ => false
         end) d (fields S c)
  | _, _ => false
  end.

(** The items [a] are those of the fields [fs], name by name, each
    canonical at the field's type. *)
Fixpoint items_canonical (a : dict) (fs : list field) : bool :=
  match a, fs with
  | [], [] => true
  | (k, x) :: a', f :: fs' =>
      String.eqb k (f_name f) && canonical x (f_type f) && items_canonical a' fs'
  | _, _ => false
  end.

End Engine.

Arguments TInt {class}.
Arguments TStr {class}.
Arguments TList {class} arg.
Arguments TCls {class} c.
Arguments mkfield {class} f_name f_type.
Arguments f_name {class} f.
Arguments f_type {class} f.
Arguments VNone {class}.
Arguments VBool {class} b.
Arguments VInt {class} n.
Arguments VStr {class} s.
Arguments VList {class} l.
Arguments VDict {class} d.
Arguments VObj {class} c attrs.
Arguments dict_get {class} d k.
Arguments dict_set {class} d k v.
Arguments keys {class} d.
Arguments is_dict {class} v.
Arguments is_list {class} v.
Arguments mkschema {class} fields class_eq_dec fields_nodup.
Arguments fields {class} s c.
Arguments class_eq_dec {class} s c c'.
Arguments fields_nodup {class} s c.
Arguments names {class} S c.
Arguments args0 {class} type_.
Arguments attr_from_json {class} type_.
Arguments getitem {class} json key.
Arguments new {class} S cls kwargs.
Arguments from_json {class} S cls json.
Arguments _parse_field {class} S type_ val.
Arguments parse_value {class} S type_ val.
Arguments resolve {class} S json fld.
Arguments for_fields {class} S json fs kwargs.
Arguments _asdict_inner {class} S obj.
Arguments getattr {class} obj name.
Arguments to_json {class} S self.
Arguments has_type {class} S v t.
Arguments attrs_typed {class} S a fs.
Arguments scalar {class} t.
Arguments supported {class} t.
Arguments schema_supported {class} S.
Arguments primitive {class} v.
Arguments store_all {class} kwargs nxs.
Arguments asdict_item {class} S c a f.
Arguments reads_back {class} S v.
Arguments is_wire {class} v.
Arguments conforms {class} S v t.
Arguments canonical {class} S v t.
Arguments items_canonical {class} S a fs.

(** ** The declarations of [protocol.py] *)

Inductive cls : Type :=
| BroadcastRequest
| User
| Chat
| Message
| InsertUserRequest
| InsertUserResponse
| GetChatsRequest
| GetChatsResponse
| InsertChatRequest
| InsertChatResponse
| GetParticipantsRequest
| GetParticipantsResponse
| GetMessagesRequest
| GetMessagesResponse
| InsertMessageRequest
| InsertMessageResponse.

Definition cls_eq_dec (c c' : cls) : {c = c'} + {c <> c'}.
Proof. decide equality. Defined.

Definition int : ty cls := TInt.
Definition str : ty cls := TStr.

Notation "name ':::' type_" := (mkfield name type_) (at level 60).

(** [dataclasses.fields(c)] for each class of the module. *)
Definition protocol_fields (c : cls) : list (field cls) :=
  match c with
  | BroadcastRequest =>
      [ "chat_id" ::: int; "user_id" ::: int;
        "user_name" ::: str; "message_text" ::: str ]
  | User => [ "user_id" ::: int; "user_name" ::: str ]
  | Chat => [ "chat_id" ::: int; "chat_name" ::: str ]
  | Message =>
      [ "message_id" ::: int; "chat_id" ::: int; "user_id" ::: int;
        "message_text" ::: str; "message_ts" ::: int ]
  | InsertUserRequest => [ "user_name" ::: str ]
  | InsertUserResponse => [ "user_id" ::: int ]
  | GetChatsRequest => [ "user_id" ::: int ]
  | GetChatsResponse => [ "chats" ::: TList (TCls Chat) ]
  | InsertChatRequest => [ "chat_name" ::: str; "user_ids" ::: TList int ]
  | InsertChatResponse => [ "chat_id" ::: int ]
  | GetParticipantsRequest => [ "chat_id" ::: int ]
  | GetParticipantsResponse => [ "users" ::: TList (TCls User) ]
  | GetMessagesRequest => [ "chat_id" ::: int ]
  | GetMessagesResponse => [ "messages" ::: TList (TCls Message) ]
  | InsertMessageRequest =>
      [ "chat_id" ::: int; "user_id" ::: int;
        "message_text" ::: str; "message_timestamp" ::: int ]
  | InsertMessageResponse => [ "message_id" ::: int ]
  end.

Definition protocol_fields_nodup (c : cls) :
  NoDup (map f_name (protocol_fields c)).
Proof.
  destruct c; cbn;
    repeat (constructor; [cbn; intuition discriminate|]); constructor.
Qed.

Definition protocol : schema cls :=
  mkschema protocol_fields cls_eq_dec protocol_fields_nodup.

Definition wire : Type := value cls.

(** ** Sample instances and wire mappings *)

Definition chat (i : Z) (name : string) : wire :=
  VObj Chat [("chat_id", VInt i); ("chat_name", VStr name)].

Definition chats_AB : wire :=
  VObj GetChatsResponse [("chats", VList [chat 1 "A"; chat 2 "B"])].

Definition chats_AB_wire : wire :=
  VDict [("chats",
          VList [VDict [("chat_id", VInt 1); ("chat_name", VStr "A")];
                 VDict [("chat_id", VInt 2); ("chat_name", VStr "B")]])].

Definition message (i : Z) (text : string) : wire :=
  VObj Message
    [("message_id", VInt i); ("chat_id", VInt 1); ("user_id", VInt 2);
     ("message_text", VStr text); ("message_ts", VInt 1700000000)].

Definition messages_123 : list wire :=
  [message 1 "m1"; message 2 "m2"; message 3 "m3"].

Definition three_messages : wire :=
  VObj GetMessagesResponse [("messages", VList messages_123)].

(** [{"chats": "not-an-array"}] *)
Definition not_an_array : dict cls := [("chats", VStr "not-an-array")].

(** [{"user_id": 5, "unexpected": true}] and [{"user_id": 5}] *)
Definition user_id_5_extra : dict cls :=
  [("user_id", VInt 5); ("unexpected", VBool true)].
Definition user_id_5 : dict cls := [("user_id", VInt 5)].

(** [{"user_id": {}}] and [{"user_id": {}, "unexpected": true}] *)
Definition user_id_mapping : dict cls := [("user_id", VDict [])].
Definition user_id_mapping_extra : dict cls :=
  [("user_id", VDict []); ("unexpected", VBool true)].

(** [{"chat_name": {}}], without [user_ids] *)
Definition chat_name_mapping : dict cls := [("chat_name", VDict [])].

(** [{"message_id": {}}] and [{"message_id": 7}], without the four
    other fields of [Message] *)
Definition message_id_mapping : dict cls := [("message_id", VDict [])].
Definition message_id_7 : dict cls := [("message_id", VInt 7)].

(** [{"users": 7}] *)
Definition users_7 : dict cls := [("users", VInt 7)].

(** [{"chat_name": "A", "note": null, "chat_id": 1}] and
    [{"chat_id": 1, "chat_name": "A"}] *)
Definition chat_A_loose : dict cls :=
  [("chat_name", VStr "A"); ("note", VNone); ("chat_id", VInt 1)].
Definition chat_A_wire : dict cls :=
  [("chat_id", VInt 1); ("chat_name", VStr "A")].
Definition chat_A_swapped : dict cls :=
  [("chat_name", VStr "A"); ("chat_id", VInt 1)].

(** [{"chats": [{"chat_id": 1, "chat_name": "A"}, {}]}] *)
Definition chats_A_empty : dict cls :=
  [("chats", VList [VDict chat_A_wire; VDict []])].

(** [{"user_id": []}] *)
Definition user_id_list : dict cls := [("user_id", VList [])].

(** [{"user_id": "five", "user_name": 5}] *)
Definition user_mistyped : dict cls :=
  [("user_id", VStr "five"); ("user_name", VInt 5)].

(** * Properties *)

(** ** The error monad *)

Lemma bind_ext {A B : Type} (m m' : result A) (k k' : A -> result B) :
  m = m' -> (forall a, k a = k' a) -> bind m k = bind m' k'.
Proof.
  intros -> Hk. destruct m'; cbn; auto.
Qed.

Lemma bind_ok {A B : Type} (m : result A) (k : A -> result B) (b : B) :
  bind m k = Ok b <-> exists a, m = Ok a /\ k a = Ok b.
Proof.
  destruct m; cbn; split.
  - eauto.
  - intros (a' & Ha & Hk). now inversion Ha; subst.
  - discriminate.
  - intros (a' & Ha & _). discriminate.
Qed.

Lemma bind_raise {A B : Type} (m : result A) (k : A -> result B) (e : exn) :
  bind m k = Raise e <-> m = Raise e \/ exists a, m = Ok a /\ k a = Raise e.
Proof.
  destruct m; cbn; split.
  - intros H. right. exists a. now split.
  - intros [H | (a' & Ha & Hk)]; [discriminate | now inversion Ha; subst].
  - intros H. left. now inversion H.
  - intros [H | (a' & Ha & _)]; [now inversion H | discriminate].
Qed.

Lemma mapM_ext {A B : Type} (f g : A -> result B) (l : list A) :
  (forall a, In a l -> f a = g a) -> mapM f l = mapM g l.
Proof.
  induction l as [| a l IH]; cbn; intros H; [reflexivity |].
  rewrite (H a) by auto. apply bind_ext; [reflexivity |].
  intros b. rewrite IH by auto. reflexivity.
Qed.

Lemma mapM_ok {A B : Type} (f : A -> result B) (l : list A) (bs : list B) :
  mapM f l = Ok bs <-> Forall2 (fun a b => f a = Ok b) l bs.
Proof.
  revert bs. induction l as [| a l IH]; cbn; intros bs.
  - split; intros H.
    + inversion H. constructor.
    + inversion H. reflexivity.
  - rewrite bind_ok. split.
    + intros (b & Hb & H). apply bind_ok in H. destruct H as (bs' & Hbs & H).
      inversion H; subst. constructor; [assumption | now apply IH].
    + intros H. inversion H as [| ? b ? bs' Hb Hbs]; subst.
      exists b. split; [assumption |]. apply IH in Hbs. now rewrite Hbs.
Qed.

Lemma mapM_length {A B : Type} (f : A -> result B) (l : list A) (bs : list B) :
  mapM f l = Ok bs -> length bs = length l.
Proof.
  intros H. apply mapM_ok in H. symmetry. eapply Forall2_length, H.
Qed.

(** A comprehension fails exactly when one element fails after all the
    elements before it succeeded, and with that element's exception. *)
Lemma mapM_raise {A B : Type} (f : A -> result B) (l : list A) (e : exn) :
  mapM f l = Raise e <->
  exists pre a post,
    l = pre ++ a :: post /\
    (forall x, In x pre -> exists y, f x = Ok y) /\
    f a = Raise e.
Proof.
  induction l as [| a l IH]; cbn.
  - split; [discriminate |].
    intros (pre & a & post & H & _). now destruct pre.
  - rewrite bind_raise. split.
    + intros [H | (b & Hb & H)].
      * exists [], a, l. cbn. intuition.
      * apply bind_raise in H. destruct H as [H | (bs & _ & H)]; [| discriminate].
        apply IH in H. destruct H as (pre & a' & post & -> & Hpre & Ha').
        exists (a :: pre), a', post. cbn. split; [reflexivity |].
        split; [| assumption].
        intros x [<- | Hx]; eauto.
    + intros (pre & a' & post & Hl & Hpre & Ha').
      destruct pre as [| p pre]; cbn in Hl; inversion Hl; subst.
      * now left.
      * right. destruct (Hpre p) as (y & Hy); [now left |].
        exists y. split; [assumption |].
        apply bind_raise. left. apply IH.
        exists pre, a', post. split; [reflexivity |].
        split; [| assumption]. intros x Hx. apply Hpre. now right.
Qed.

Lemma mapM_total {A B : Type} (f : A -> result B) (l : list A) :
  (forall a, In a l -> exists b, f a = Ok b) -> exists bs, mapM f l = Ok bs.
Proof.
  induction l as [| a l IH]; cbn; intros H; [eauto |].
  destruct (H a) as (b & Hb); [auto |].
  destruct IH as (bs & Hbs); [auto |].
  exists (b :: bs). now rewrite Hb, Hbs.
Qed.

Lemma mapM_In_raise {A B : Type} (f : A -> result B) (l : list A) (a : A) :
  In a l -> raises (f a) -> raises (mapM f l).
Proof.
  induction l as [| x l IH]; cbn; [tauto |].
  intros [-> | Ha] Hr.
  - destruct Hr as (e & ->). now exists e.
  - destruct (f x); [| now eexists].
    destruct (IH Ha Hr) as (e & ->). now exists e.
Qed.

Section EngineFacts.

Context {class : Type} (S : schema class).

Local Notation value := (value class).
Local Notation dict := (dict class).
Local Notation field := (field class).

(** ** Induction on values, through lists and dicts *)

Lemma value_ind (P : value -> Prop)
  (HNone : P VNone)
  (HBool : forall b, P (VBool b))
  (HInt : forall n, P (VInt n))
  (HStr : forall s, P (VStr s))
  (HList : forall l, Forall P l -> P (VList l))
  (HDict : forall d, Forall (fun kv => P (snd kv)) d -> P (VDict d))
  (HObj : forall c a, Forall (fun kv => P (snd kv)) a -> P (VObj c a)) :
  forall v, P v.
Proof.
  fix IH 1. intros [| b | n | s | l | d | c a].
  - exact HNone.
  - apply HBool.
  - apply HInt.
  - apply HStr.
  - apply HList. induction l as [| v l IHl]; constructor; [apply IH | exact IHl].
  - apply HDict.
    induction d as [| [k v] d IHd]; constructor; [apply IH | exact IHd].
  - apply HObj.
    induction a as [| [k v] a IHa]; constructor; [apply IH | exact IHa].
Qed.

(** ** Dicts *)

Lemma dict_get_In (d : dict) (k : string) (v : value) :
  dict_get d k = Some v -> In (k, v) d.
Proof.
  induction d as [| [k' v'] d IH]; cbn; [discriminate |].
  destruct (String.eqb_spec k k') as [-> | Hne].
  - intros H. inversion H. now left.
  - intros H. right. now apply IH.
Qed.

Lemma dict_get_None (d : dict) (k : string) :
  dict_get d k = None <-> ~ In k (keys d).
Proof.
  induction d as [| [k' v'] d IH]; cbn; [tauto |].
  destruct (String.eqb_spec k k') as [-> | Hne].
  - split; [discriminate | intros H; exfalso; apply H; now left].
  - rewrite IH. split; [intros H [E | Hin]; [now subst | tauto] | tauto].
Qed.

Lemma dict_set_fresh (d : dict) (k : string) (v : value) :
  ~ In k (keys d) -> dict_set d k v = d ++ [(k, v)].
Proof.
  induction d as [| [k' v'] d IH]; cbn; [reflexivity |].
  intros H. destruct (String.eqb_spec k k') as [-> | Hne]; [tauto |].
  rewrite IH by tauto. reflexivity.
Qed.

Lemma dict_get_combine (ns : list string) (xs : list value) (i : nat)
  (n : string) (x : value) :
  NoDup ns -> nth_error ns i = Some n -> nth_error xs i = Some x ->
  dict_get (combine ns xs) n = Some x.
Proof.
  intros Hnd. revert xs i.
  induction Hnd as [| n' ns Hn' Hnd IH]; intros xs i Hn Hx.
  - now destruct i.
  - destruct xs as [| x' xs]; [now destruct i |].
    destruct i as [| i]; cbn in *.
    + inversion Hn; inversion Hx; subst. now rewrite String.eqb_refl.
    + destruct (String.eqb_spec n n') as [-> | _].
      * exfalso. apply Hn'. eapply nth_error_In, Hn.
      * eapply IH; eassumption.
Qed.

(** ** [from_json] in the shape of the source *)

Lemma from_json_eq (cls : class) (json : value) :
  from_json S cls json =
  kwargs <- for_fields S json (fields S cls) [] ;; new S cls kwargs.
Proof.
  destruct json as [| b | n | s | l | d | c a];
    try (cbn; destruct (fields S cls); reflexivity).
  cbn [from_json]. apply bind_ext; [| reflexivity].
  generalize (@nil (string * value)) as kwargs.
  generalize (fields S cls) as fs.
  induction fs as [| fld fs IHfs]; intros kwargs; [reflexivity |].
  cbn [for_fields]. apply bind_ext; [| intros x; apply IHfs].
  unfold resolve, getitem. clear IHfs.
  induction d as [| [k val] d IHd]; [reflexivity |].
  cbn [dict_get]. destruct (String.eqb (f_name fld) k); [| exact IHd].
  destruct val as [| b | n | s | l | d' | c a]; try reflexivity.
  cbn [bind parse_value]. apply bind_ext; [reflexivity | intros type_].
  apply bind_ext; [| reflexivity].
  induction l as [| v l IHl]; [reflexivity |].
  cbn [mapM]. apply bind_ext; [| intros y; now rewrite IHl].
  destruct v; reflexivity.
Qed.


Lemma for_fields_mapM (json : value) (fs : list field) (kwargs : dict) :
  for_fields S json fs kwargs =
  xs <- mapM (resolve S json) fs ;;
  Ok (store_all kwargs (combine (map f_name fs) xs)).
Proof.
  revert kwargs. induction fs as [| fld fs IH]; intros kwargs; [reflexivity |].
  cbn [for_fields mapM]. destruct (resolve S json fld) as [x | e]; [| reflexivity].
  cbn [bind]. rewrite IH. destruct (mapM (resolve S json) fs); reflexivity.
Qed.

Lemma store_all_fresh (ns : list string) (xs : list value) (kwargs : dict) :
  NoDup ns -> (forall n, In n ns -> ~ In n (keys kwargs)) ->
  store_all kwargs (combine ns xs) = kwargs ++ combine ns xs.
Proof.
  intros Hnd. revert xs kwargs.
  induction Hnd as [| n ns Hn Hnd IH]; intros xs kwargs Hfresh.
  - cbn. now rewrite app_nil_r.
  - destruct xs as [| x xs]; cbn; [now rewrite app_nil_r |].
    rewrite dict_set_fresh by (apply Hfresh; now left).
    unfold store_all in IH. rewrite IH.
    + now rewrite <- app_assoc.
    + intros m Hm. unfold keys. rewrite map_app, in_app_iff. cbn.
      intros [H | [-> | []]]; [| contradiction].
      apply (Hfresh m); [now right | exact H].
Qed.

Lemma keys_combine (ns : list string) (xs : list value) :
  length xs = length ns -> keys (combine ns xs) = ns.
Proof.
  revert xs. induction ns as [| n ns IH]; intros [| x xs] H;
    cbn in *; try discriminate; [reflexivity |].
  f_equal. apply IH. now inversion H.
Qed.

Lemma mapM_dict_get (d : dict) (ns : list string) (xs : list value) :
  length xs = length ns ->
  (forall i n x, nth_error ns i = Some n -> nth_error xs i = Some x ->
                 dict_get d n = Some x) ->
  mapM (fun name =>
          match dict_get d name with
          | Some v => Ok (name, v)
          | None => Raise TypeError
          end) ns = Ok (combine ns xs).
Proof.
  revert xs. induction ns as [| n ns IH]; intros [| x xs] Hlen Hget;
    cbn in *; try discriminate; [reflexivity |].
  rewrite (Hget 0 n x) by reflexivity. cbn.
  rewrite (IH xs); [reflexivity | now inversion Hlen |].
  intros i m y Hm Hy. apply (Hget (Datatypes.S i)); assumption.
Qed.

(** The constructor call at the end of [from_json] cannot fail: the
    keywords are exactly the fields. *)
Lemma new_combine (cls : class) (xs : list value) :
  length xs = length (fields S cls) ->
  new S cls (combine (names S cls) xs) = Ok (VObj cls (combine (names S cls) xs)).
Proof.
  intros Hlen. unfold new.
  assert (Hlen' : length xs = length (names S cls))
    by (unfold names; now rewrite length_map).
  rewrite keys_combine by exact Hlen'.
  replace (forallb _ (names S cls)) with true.
  2:{ symmetry. apply forallb_forall. intros n Hn.
      apply existsb_exists. exists n. split; [exact Hn | apply String.eqb_refl]. }
  rewrite (mapM_dict_get _ _ xs Hlen'); [reflexivity |].
  intros i n x Hn Hx. eapply dict_get_combine; eauto. apply fields_nodup.
Qed.

(** ** What [from_json] computes

    Every declared field is resolved, in declaration order; the first
    exception is the outcome; otherwise the instance holds the
    resolved values under the declared names. *)
Theorem from_json_spec (cls : class) (json : value) :
  from_json S cls json =
  xs <- mapM (resolve S json) (fields S cls) ;;
  Ok (VObj cls (combine (names S cls) xs)).
Proof.
  rewrite from_json_eq, for_fields_mapM.
  destruct (mapM (resolve S json) (fields S cls)) as [xs | e] eqn:E;
    [| reflexivity].
  cbn [bind]. fold (names S cls).
  rewrite store_all_fresh; [| apply fields_nodup | intros n _ []].
  cbn [app]. apply new_combine. now apply mapM_length in E.
Qed.

(** ** [_asdict_inner] in the shape of [dataclasses._asdict_inner] *)

Lemma _asdict_inner_obj (c : class) (attrs : dict) :
  _asdict_inner S (VObj c attrs) =
  items <- mapM (fun f =>
             x <- getattr (VObj c attrs) (f_name f) ;;
             v <- _asdict_inner S x ;;
             Ok (f_name f, v)) (fields S c) ;;
  Ok (VDict items).
Proof.
  cbn [_asdict_inner]. apply bind_ext; [| reflexivity].
  induction (fields S c) as [| f fs IH]; [reflexivity |].
  cbn [mapM]. rewrite <- IH. clear IH.
  assert (H : forall a : dict,
    (fix getattr_ (a : dict) : result value :=
       match a with
       | [] => Raise (AttributeError (f_name f))
       | (k, x) :: a' =>
           if String.eqb (f_name f) k then _asdict_inner S x else getattr_ a'
       end) a =
    (x <- getattr (VObj c a) (f_name f) ;; _asdict_inner S x)).
  { induction a as [| [k x] a IHa]; [reflexivity |].
    cbn [getattr dict_get]. destruct (String.eqb (f_name f) k); [reflexivity |].
    exact IHa. }
  rewrite H. destruct (getattr (VObj c attrs) (f_name f)); [| reflexivity].
  cbn [bind]. destruct (_asdict_inner S a); reflexivity.
Qed.

Lemma _asdict_inner_list (l : list value) :
  _asdict_inner S (VList l) = xs <- mapM (_asdict_inner S) l ;; Ok (VList xs).
Proof.
  cbn [_asdict_inner]. apply bind_ext; [| reflexivity].
  induction l as [| v l IH]; [reflexivity |].
  cbn [mapM]. now rewrite IH.
Qed.

Lemma _asdict_inner_dict (d : dict) :
  _asdict_inner S (VDict d) =
  items <- mapM (fun kv => v <- _asdict_inner S (snd kv) ;; Ok (fst kv, v)) d ;;
  Ok (VDict items).
Proof.
  cbn [_asdict_inner]. apply bind_ext; [| reflexivity].
  induction d as [| [k v] d IH]; [reflexivity |].
  cbn [mapM fst snd]. rewrite IH.
  destruct (_asdict_inner S v); reflexivity.
Qed.

(** ** Validly constructed instances *)

Lemma dict_get_NoDup_In (d : dict) (k : string) (x : value) :
  NoDup (keys d) -> In (k, x) d -> dict_get d k = Some x.
Proof.
  induction d as [| [k' x'] d IH]; cbn; [tauto |].
  intros Hnd [E | Hin]; inversion Hnd as [| ? ? Hk' Hnd']; subst.
  - inversion E; subst. now rewrite String.eqb_refl.
  - destruct (String.eqb_spec k k') as [-> | _]; [| now apply IH].
    exfalso. apply Hk'. unfold keys. apply in_map_iff. now exists (k', x).
Qed.

Lemma has_type_obj (c c' : class) (a : dict) :
  has_type S (VObj c a) (TCls c') =
  if class_eq_dec S c c' then attrs_typed S a (fields S c) else false.
Proof.
  cbn [has_type]. destruct (class_eq_dec S c c'); [| reflexivity].
  generalize (fields S c) as fs.
  induction a as [| [k x] a IH]; intros [| f fs]; reflexivity.
Qed.

Lemma attrs_typed_Forall2 (a : dict) (fs : list field) :
  attrs_typed S a fs = true <->
  Forall2 (fun kv f => fst kv = f_name f /\ has_type S (snd kv) (f_type f) = true)
          a fs.
Proof.
  revert fs. induction a as [| [k x] a IH]; intros [| f fs]; cbn.
  - split; [constructor | reflexivity].
  - split; [discriminate | intros H; inversion H].
  - split; [discriminate | intros H; inversion H].
  - rewrite !andb_true_iff, IH, String.eqb_eq. split.
    + intros [[Hk Hx] Hr]. now constructor.
    + intros H. inversion H; subst. cbn in *. tauto.
Qed.

Lemma attrs_typed_keys (a : dict) (fs : list field) :
  attrs_typed S a fs = true -> keys a = map f_name fs.
Proof.
  unfold keys. rewrite attrs_typed_Forall2.
  induction 1 as [| kv f a fs [Hk _] _ IH]; cbn; [reflexivity | now rewrite Hk, IH].
Qed.

Lemma attrs_typed_combine (a : dict) (fs : list field) :
  attrs_typed S a fs = true -> combine (map f_name fs) (map snd a) = a.
Proof.
  rewrite attrs_typed_Forall2.
  induction 1 as [| [k x] f a fs [Hk _] _ IH]; cbn in *;
    [reflexivity | now rewrite <- Hk, IH].
Qed.

(** A typed attribute list gives every declared field a value of the
    field's type. *)
Lemma attrs_typed_field (a : dict) (fs : list field) (f : field) :
  attrs_typed S a fs = true -> NoDup (map f_name fs) -> In f fs ->
  exists x, dict_get a (f_name f) = Some x /\ has_type S x (f_type f) = true.
Proof.
  intros Ht Hnd Hf.
  assert (Hk := attrs_typed_keys _ _ Ht).
  assert (Hnd' : NoDup (keys a)) by now rewrite Hk.
  apply attrs_typed_Forall2 in Ht.
  clear Hk Hnd. revert Hnd'.
  assert (G : exists x, In (f_name f, x) a /\ has_type S x (f_type f) = true).
  { induction Ht as [| [k x] g a fs [Hk Hx] _ IH]; [contradiction |].
    destruct Hf as [-> | Hf].
    - exists x. cbn in *. subst. split; [now left | assumption].
    - destruct (IH Hf) as (y & Hy & Hty). exists y. split; [now right | assumption]. }
  destruct G as (x & Hin & Hx). intros Hnd'. exists x.
  split; [now apply dict_get_NoDup_In | exact Hx].
Qed.

(** ** Encoding never fails on a validly constructed value *)

Lemma _asdict_inner_total (v : value) :
  forall t, has_type S v t = true -> exists w, _asdict_inner S v = Ok w.
Proof.
  induction v as [| b | n | s | l IH | d IH | c a IH] using value_ind;
    intros t Ht; try (eexists; reflexivity); try (destruct t; discriminate).
  - destruct t as [| | arg |]; try discriminate. cbn [has_type] in Ht.
    rewrite _asdict_inner_list.
    destruct (mapM_total (_asdict_inner S) l) as (ws & ->); [| eexists; reflexivity].
    intros x Hx. rewrite Forall_forall in IH.
    apply (IH x Hx arg). rewrite forallb_forall in Ht. now apply Ht.
  - destruct t as [| | | c']; try discriminate.
    rewrite has_type_obj in Ht.
    destruct (class_eq_dec S c c') as [<- | _]; [| discriminate].
    rewrite _asdict_inner_obj.
    match goal with |- context [mapM ?h _] =>
      destruct (mapM_total h (fields S c)) as (items & ->) end;
      [| eexists; reflexivity].
    intros f Hf.
    destruct (attrs_typed_field _ _ f Ht (fields_nodup S c) Hf) as (x & Hget & Hx).
    cbn [getattr]. rewrite Hget. cbn [bind].
    rewrite Forall_forall in IH.
    destruct (IH (f_name f, x) (dict_get_In _ _ _ Hget) _ Hx) as (w & Hw).
    cbn [snd] in Hw. rewrite Hw. eexists; reflexivity.
Qed.

(** ** Decoding an encoding *)



Lemma asdict_items_keys (c : class) (a : dict) (fs : list field) (items : dict) :
  Forall2 (fun f item => asdict_item S c a f = Ok item) fs items ->
  keys items = map f_name fs.
Proof.
  induction 1 as [| f item fs items Hitem _ IH]; [reflexivity |].
  cbn. rewrite <- IH. f_equal.
  unfold asdict_item in Hitem.
  apply bind_ok in Hitem. destruct Hitem as (x & _ & Hitem).
  apply bind_ok in Hitem. destruct Hitem as (v & _ & Hitem).
  now inversion Hitem.
Qed.

Lemma roundtrip_fields (c : class) (full_a full_items : dict) :
  NoDup (keys full_a) -> NoDup (keys full_items) ->
  forall (a : dict) (fs : list field),
    Forall2 (fun kv f => fst kv = f_name f /\
                         has_type S (snd kv) (f_type f) = true) a fs ->
    forall items : dict,
    Forall2 (fun f item => asdict_item S c full_a f = Ok item) fs items ->
    incl a full_a -> incl items full_items ->
    (forall f, In f fs -> supported (f_type f) = true) ->
    Forall (fun kv => reads_back S (snd kv)) a ->
    mapM (resolve S (VDict full_items)) fs = Ok (map snd a).
Proof.
  intros Hnda Hndi a fs Ht.
  induction Ht as [| [k x] f a fs [Hk Hx] _ IH];
    intros items Hitems Hina Hini Hsup Hrb.
  - reflexivity.
  - inversion Hitems as [| ? item ? items' Hitem Hitems']; subst.
    inversion Hrb as [| ? ? Hrbx Hrb']; subst. cbn [fst snd] in *.
    assert (Hget : dict_get full_a (f_name f) = Some x).
    { apply dict_get_NoDup_In; [exact Hnda |]. rewrite <- Hk. apply Hina. now left. }
    unfold asdict_item in Hitem. cbn [getattr] in Hitem.
    rewrite Hget in Hitem. cbn [bind] in Hitem.
    apply bind_ok in Hitem. destruct Hitem as (w & Hw & Hitem).
    inversion Hitem; subst item. clear Hitem.
    assert (Hgetw : dict_get full_items (f_name f) = Some w).
    { apply dict_get_NoDup_In; [exact Hndi |]. apply Hini. now left. }
    cbn [mapM]. unfold resolve at 1. cbn [getitem]. rewrite Hgetw. cbn [bind].
    destruct (Hrbx (f_type f) w Hx Hw) as [_ Hpv].
    rewrite Hpv by (apply Hsup; now left). cbn [bind map snd].
    rewrite (IH items').
    + reflexivity.
    + exact Hitems'.
    + intros y Hy. apply Hina. now right.
    + intros y Hy. apply Hini. now right.
    + intros g Hg. apply Hsup. now right.
    + exact Hrb'.
Qed.

Lemma _parse_field_ok (t : ty class) (v : value) :
  is_dict v = false -> _parse_field S t v = Ok v.
Proof.
  unfold _parse_field. now intros ->.
Qed.

Lemma roundtrip_value (Hsup : schema_supported S) (v : value) : reads_back S v.
Proof.
  induction v as [| b | n | s | l IH | d IH | c a IH] using value_ind;
    intros t w Ht Hw; try (destruct t; discriminate).
  - inversion Hw; subst. split; reflexivity.
  - inversion Hw; subst. split; reflexivity.
  - inversion Hw; subst. split; reflexivity.
  - destruct t as [| | arg |]; try discriminate. cbn [has_type] in Ht.
    split; [discriminate |]. cbn [supported]. intros Harg.
    rewrite _asdict_inner_list in Hw.
    apply bind_ok in Hw. destruct Hw as (ws & Hws & Hw).
    inversion Hw; subst w. clear Hw.
    cbn [parse_value args0 bind].
    replace (mapM (_parse_field S arg) ws) with (Ok (A := list value) l);
      [reflexivity |].
    symmetry. apply mapM_ok. apply mapM_ok in Hws.
    rewrite forallb_forall in Ht. rewrite Forall_forall in IH.
    induction Hws as [| x y l ws Hxy _ IHws]; constructor.
    + apply (IH x (or_introl eq_refl) arg y); auto. apply Ht. now left.
    + apply IHws.
      * intros z Hz. apply IH. now right.
      * intros z Hz. apply Ht. now right.
  - destruct t as [| | | c']; try discriminate.
    rewrite has_type_obj in Ht.
    destruct (class_eq_dec S c c') as [<- | _]; [| discriminate].
    rewrite _asdict_inner_obj in Hw.
    apply bind_ok in Hw. destruct Hw as (items & Hitems & Hw).
    inversion Hw; subst w. clear Hw.
    apply mapM_ok in Hitems.
    assert (Hka := attrs_typed_keys _ _ Ht).
    assert (Hki := asdict_items_keys _ _ _ _ Hitems).
    assert (Hdec : from_json S c (VDict items) = Ok (VObj c a)).
    { assert (Hm : mapM (resolve S (VDict items)) (fields S c) = Ok (map snd a)).
      { apply (roundtrip_fields c a items) with (a := a) (items := items).
        - rewrite Hka. apply fields_nodup.
        - rewrite Hki. apply fields_nodup.
        - now apply attrs_typed_Forall2.
        - exact Hitems.
        - apply incl_refl.
        - apply incl_refl.
        - intros f Hf. apply (Hsup c f Hf).
        - exact IH. }
      rewrite from_json_spec, Hm. cbn [bind]. unfold names.
      now rewrite attrs_typed_combine. }
    split; intros _; cbn [parse_value]; unfold _parse_field; cbn; exact Hdec.
Qed.

(** ** One field at a time *)

Lemma Forall2_In_nth {A B : Type} (R : A -> B -> Prop) (l : list A)
  (l' : list B) (a : A) :
  Forall2 R l l' -> In a l ->
  exists i b, nth_error l i = Some a /\ nth_error l' i = Some b /\ R a b.
Proof.
  induction 1 as [| x y l l' Hxy _ IH]; [contradiction |].
  intros [-> | Ha].
  - now exists 0, y.
  - destruct (IH Ha) as (i & b & Hi & Hi' & Hab). now exists (Datatypes.S i), b.
Qed.

Lemma from_json_ok (c : class) (json r : value) :
  from_json S c json = Ok r <->
  exists xs, mapM (resolve S json) (fields S c) = Ok xs /\
             r = VObj c (combine (names S c) xs).
Proof.
  rewrite from_json_spec, bind_ok. split; intros (xs & Hxs & H); exists xs;
    (split; [exact Hxs |]); [now inversion H | now subst].
Qed.

(** A decoded record holds, under each declared name, what that field
    resolved to. *)
Lemma from_json_field (c : class) (json r : value) (f : field) :
  from_json S c json = Ok r -> In f (fields S c) ->
  exists x, resolve S json f = Ok x /\ getattr r (f_name f) = Ok x.
Proof.
  intros Hr Hf. apply from_json_ok in Hr. destruct Hr as (xs & Hxs & ->).
  apply mapM_ok in Hxs.
  destruct (Forall2_In_nth _ _ _ f Hxs Hf) as (i & x & Hi & Hi' & Hx).
  exists x. split; [exact Hx |]. cbn [getattr].
  rewrite (dict_get_combine (names S c) xs i (f_name f) x);
    [reflexivity | apply fields_nodup | | exact Hi'].
  unfold names. now apply map_nth_error.
Qed.

Lemma from_json_all (c : class) (json : value) :
  (forall f, In f (fields S c) -> exists x, resolve S json f = Ok x) ->
  exists xs, from_json S c json = Ok (VObj c (combine (names S c) xs)) /\
             length xs = length (fields S c).
Proof.
  intros H. destruct (mapM_total _ _ H) as (xs & Hxs).
  exists xs. split; [| now apply mapM_length in Hxs].
  apply from_json_ok. now exists xs.
Qed.

Lemma from_json_raises_at (c : class) (json : value) (f : field) :
  In f (fields S c) -> raises (resolve S json f) -> raises (from_json S c json).
Proof.
  intros Hf Hr. rewrite from_json_spec.
  destruct (mapM_In_raise _ _ _ Hf Hr) as (e & ->). now exists e.
Qed.

(** The exception of [from_json] is that of the first field that does
    not resolve. *)
Lemma from_json_raise (c : class) (json : value) (e : exn) :
  from_json S c json = Raise e <->
  exists pre f post,
    fields S c = pre ++ f :: post /\
    (forall g, In g pre -> exists x, resolve S json g = Ok x) /\
    resolve S json f = Raise e.
Proof.
  rewrite from_json_spec, bind_raise, mapM_raise. split.
  - intros [H | (xs & _ & H)]; [exact H | discriminate].
  - intros H. now left.
Qed.

Lemma resolve_missing (d : dict) (f : field) :
  dict_get d (f_name f) = None ->
  resolve S (VDict d) f = Raise (KeyError (f_name f)).
Proof.
  intros H. unfold resolve. cbn [getitem]. now rewrite H.
Qed.

Lemma resolve_primitive (d : dict) (f : field) (p : value) :
  dict_get d (f_name f) = Some p -> primitive p = true ->
  resolve S (VDict d) f = Ok p.
Proof.
  intros H Hp. unfold resolve. cbn [getitem]. rewrite H. cbn [bind].
  destruct p; try discriminate; reflexivity.
Qed.

Lemma resolve_mapping (d m : dict) (f : field) :
  dict_get d (f_name f) = Some (VDict m) ->
  resolve S (VDict d) f =
  c <- attr_from_json (f_type f) ;; from_json S c (VDict m).
Proof.
  intros H. unfold resolve. cbn [getitem]. now rewrite H.
Qed.

Lemma resolve_sequence (d : dict) (l : list value) (f : field) :
  dict_get d (f_name f) = Some (VList l) ->
  resolve S (VDict d) f =
  type_ <- args0 (f_type f) ;;
  xs <- mapM (_parse_field S type_) l ;;
  Ok (VList xs).
Proof.
  intros H. unfold resolve. cbn [getitem]. now rewrite H.
Qed.

Lemma resolve_ext (d d' : dict) (f : field) :
  dict_get d' (f_name f) = dict_get d (f_name f) ->
  resolve S (VDict d') f = resolve S (VDict d) f.
Proof.
  intros H. unfold resolve. cbn [getitem]. now rewrite H.
Qed.

(** ** Encoding an instance *)

Lemma encode_shape (c : class) (r : value) :
  has_type S r (TCls c) = true ->
  exists a items,
    r = VObj c a /\
    attrs_typed S a (fields S c) = true /\
    to_json S r = Ok (VDict items) /\
    Forall2 (fun f item => asdict_item S c a f = Ok item) (fields S c) items.
Proof.
  intros Ht. destruct r as [| | | | | | c' a]; try discriminate.
  destruct (_asdict_inner_total _ _ Ht) as (w & Hw).
  rewrite has_type_obj in Ht.
  destruct (class_eq_dec S c' c) as [-> | _]; [| discriminate].
  cbn [to_json]. rewrite Hw. rewrite _asdict_inner_obj in Hw.
  apply bind_ok in Hw. destruct Hw as (items & Hitems & Hw).
  inversion Hw; subst w. exists a, items.
  apply mapM_ok in Hitems. now repeat split.
Qed.

(** Under each declared name the encoding holds the encoding of the
    attribute of that name. *)
Lemma encode_field (c : class) (r x : value) (f : field) :
  has_type S r (TCls c) = true ->
  In f (fields S c) ->
  getattr r (f_name f) = Ok x ->
  exists items w,
    to_json S r = Ok (VDict items) /\
    dict_get items (f_name f) = Some w /\
    _asdict_inner S x = Ok w /\
    has_type S x (f_type f) = true.
Proof.
  intros Ht Hf Hx.
  destruct (encode_shape _ _ Ht) as (a & items & -> & Ha & Hw & Hitems).
  exists items.
  destruct (Forall2_In_nth _ _ _ f Hitems Hf) as (i & item & Hi & Hi' & Hitem).
  unfold asdict_item in Hitem. rewrite Hx in Hitem. cbn [bind] in Hitem.
  apply bind_ok in Hitem. destruct Hitem as (w & Hxw & Hitem).
  inversion Hitem; subst item. exists w.
  split; [exact Hw |]. split; [| split; [exact Hxw |]].
  - apply dict_get_NoDup_In; [| eapply nth_error_In, Hi'].
    rewrite (asdict_items_keys _ _ _ _ Hitems). apply fields_nodup.
  - destruct (attrs_typed_field _ _ f Ha (fields_nodup S c) Hf) as (y & Hy & Hty).
    cbn [getattr] in Hx. rewrite Hy in Hx. now inversion Hx; subst.
Qed.

Lemma decode_encode (Hsup : schema_supported S) (c : class) (r : value) :
  has_type S r (TCls c) = true ->
  exists items,
    to_json S r = Ok (VDict items) /\ from_json S c (VDict items) = Ok r.
Proof.
  intros Ht.
  destruct (encode_shape _ _ Ht) as (a & items & -> & Ha & Hw & Hitems).
  exists items. split; [exact Hw |].
  destruct (roundtrip_value Hsup (VObj c a) (TCls c) (VDict items) Ht Hw)
    as [H _].
  apply (H eq_refl).
Qed.

(** ** The engine, for any declarations *)

(** C7. Decoding is all or nothing.  For every record class and every
    wire value, either [from_json] returns an instance whose
    attributes are exactly the declared fields, each holding what its
    wire entry resolved to, or it raises the exception of a field
    that did not resolve and returns no instance: no attribute is
    ever missing or filled with a default. *)
Theorem no_partial_record (c : class) (json : value) :
  (exists attrs,
      from_json S c json = Ok (VObj c attrs) /\
      keys attrs = names S c /\
      forall f, In f (fields S c) ->
        exists x, resolve S json f = Ok x /\
                  dict_get attrs (f_name f) = Some x)
  \/
  (exists e,
      from_json S c json = Raise e /\
      exists f, In f (fields S c) /\ resolve S json f = Raise e).
Proof.
  destruct (from_json S c json) as [r | e] eqn:E.
  - left. pose proof E as E'. apply from_json_ok in E'.
    destruct E' as (xs & Hxs & ->).
    exists (combine (names S c) xs). split; [reflexivity |]. split.
    + apply keys_combine. apply mapM_length in Hxs. unfold names.
      now rewrite length_map.
    + intros f Hf. destruct (from_json_field _ _ _ f E Hf) as (x & Hx & Hg).
      exists x. split; [exact Hx |]. cbn [getattr] in Hg.
      destruct (dict_get _ _); now inversion Hg.
  - right. exists e. split; [reflexivity |].
    apply from_json_raise in E. destruct E as (pre & f & post & Hfs & _ & Hf).
    exists f. split; [| exact Hf]. rewrite Hfs. apply in_elt.
Qed.

(** C8. Encoding is total.  For every instance of a record class whose
    attributes are the declared fields with values of their declared
    types, [to_json] raises nothing and returns a mapping whose keys
    are the declared field names. *)
Theorem to_json_total (c : class) (r : value) :
  has_type S r (TCls c) = true ->
  exists items, to_json S r = Ok (VDict items) /\ keys items = names S c.
Proof.
  intros Ht.
  destruct (encode_shape _ _ Ht) as (a & items & -> & _ & Hw & Hitems).
  exists items. split; [exact Hw |].
  apply (asdict_items_keys c a). exact Hitems.
Qed.

(** C4. The one shape guard.  Only a mapping is ever decoded as a
    record.  When the wire value at a field's key is not a mapping,
    [_parse_field] returns it unchanged at every declared type, also a
    record type, without calling [from_json] on it.  If it is a
    primitive (not a sequence either) the field resolves to that very
    value and the decoded instance holds it; if it is a sequence the
    same guard is applied to each of its elements. *)
Theorem only_mappings_are_decoded (c : class) (f : field) (d : dict) (v : value) :
  In f (fields S c) ->
  dict_get d (f_name f) = Some v ->
  is_dict v = false ->
  (forall t, _parse_field S t v = Ok v) /\
  (is_list v = false ->
     resolve S (VDict d) f = Ok v /\
     forall r, from_json S c (VDict d) = Ok r -> getattr r (f_name f) = Ok v) /\
  (forall l, v = VList l ->
     resolve S (VDict d) f =
       (type_ <- args0 (f_type f) ;;
        xs <- mapM (_parse_field S type_) l ;;
        Ok (VList xs)) /\
     forall type_ x, In x l -> is_dict x = false -> _parse_field S type_ x = Ok x).
Proof.
  intros Hf Hget Hd. split; [| split].
  - intros t. now apply _parse_field_ok.
  - intros Hl.
    assert (Hp : primitive v = true) by (unfold primitive; now rewrite Hd, Hl).
    split; [now apply resolve_primitive |].
    intros r Hr. destruct (from_json_field _ _ _ f Hr Hf) as (x & Hx & Hg).
    rewrite (resolve_primitive _ _ _ Hget Hp) in Hx. now inversion Hx; subst.
  - intros l ->. split; [now apply resolve_sequence |].
    intros type_ x _ Hx. now apply _parse_field_ok.
Qed.

(** C10. A mapping where a primitive is declared.  When the wire value
    at the key of a field declared [int] or [str] is a mapping, the
    field does not resolve ([from_json] is looked up on the primitive
    type, which has none) and decoding raises. *)
Theorem mapping_for_primitive_fails (c : class) (f : field) (d m : dict) :
  In f (fields S c) ->
  f_type f = TInt \/ f_type f = TStr ->
  dict_get d (f_name f) = Some (VDict m) ->
  resolve S (VDict d) f = Raise (AttributeError "from_json") /\
  raises (from_json S c (VDict d)).
Proof.
  intros Hf Hty Hget.
  assert (H : resolve S (VDict d) f = Raise (AttributeError "from_json")).
  { rewrite (resolve_mapping _ _ _ Hget). now destruct Hty as [-> | ->]. }
  split; [exact H |]. apply (from_json_raises_at c _ f Hf).
  now exists (AttributeError "from_json").
Qed.

(** C2, as the code has it.  When the wire value at the key of a field
    declared as a sequence is not a sequence: if it is a mapping the
    field does not resolve and decoding raises; if it is anything
    else the mismatch goes unnoticed, the field resolves to the wire
    value itself and a decoded instance holds it. *)
Theorem sequence_field_shape (c : class) (f : field) (arg : ty class)
  (d : dict) (v : value) :
  In f (fields S c) ->
  f_type f = TList arg ->
  dict_get d (f_name f) = Some v ->
  is_list v = false ->
  (is_dict v = true ->
     resolve S (VDict d) f = Raise (AttributeError "from_json") /\
     raises (from_json S c (VDict d))) /\
  (is_dict v = false ->
     resolve S (VDict d) f = Ok v /\
     forall r, from_json S c (VDict d) = Ok r -> getattr r (f_name f) = Ok v).
Proof.
  intros Hf Hty Hget Hl. split; intros Hd.
  - destruct v as [| | | | | m |]; try discriminate.
    assert (H : resolve S (VDict d) f = Raise (AttributeError "from_json")).
    { rewrite (resolve_mapping _ _ _ Hget). now rewrite Hty. }
    split; [exact H |]. apply (from_json_raises_at c _ f Hf).
    now exists (AttributeError "from_json").
  - assert (Hp : primitive v = true) by (unfold primitive; now rewrite Hd, Hl).
    split; [now apply resolve_primitive |].
    intros r Hr. destruct (from_json_field _ _ _ f Hr Hf) as (x & Hx & Hg).
    rewrite (resolve_primitive _ _ _ Hget Hp) in Hx. now inversion Hx; subst.
Qed.

(** C3, as the code has it.  When the wire mapping has no key for a
    declared field, decoding raises; the exception is the [KeyError]
    of that field when every field declared before it resolves (so
    always when it is the first declared field). *)
Theorem missing_field_error (c : class) (d : dict) (pre post : list field)
  (f : field) :
  fields S c = pre ++ f :: post ->
  dict_get d (f_name f) = None ->
  raises (from_json S c (VDict d)) /\
  ((forall g, In g pre -> exists x, resolve S (VDict d) g = Ok x) ->
   from_json S c (VDict d) = Raise (KeyError (f_name f))).
Proof.
  intros Hfs Hget. pose proof (resolve_missing _ _ Hget) as Hr. split.
  - apply (from_json_raises_at c _ f).
    + rewrite Hfs. apply in_elt.
    + now exists (KeyError (f_name f)).
  - intros Hpre. apply from_json_raise. now exists pre, f, post.
Qed.

(** C9, as the code has it.  Fields are resolved in declaration order:
    when several declared fields have no key in the wire mapping and
    every field declared before the earliest of them resolves,
    decoding raises the [KeyError] of that earliest field, not of a
    later one. *)
Theorem first_missing_field (c : class) (d : dict) (pre post : list field)
  (f g : field) :
  fields S c = pre ++ f :: post ->
  (forall h, In h pre -> exists x, resolve S (VDict d) h = Ok x) ->
  dict_get d (f_name f) = None ->
  In g post ->
  dict_get d (f_name g) = None ->
  from_json S c (VDict d) = Raise (KeyError (f_name f)) /\
  f_name f <> f_name g.
Proof.
  intros Hfs Hpre Hf Hg _. split.
  - apply from_json_raise. exists pre, f, post.
    split; [exact Hfs |]. split; [exact Hpre | now apply resolve_missing].
  - pose proof (fields_nodup S c) as Hnd. rewrite Hfs, map_app in Hnd.
    apply NoDup_remove_2 in Hnd. intros E. apply Hnd.
    rewrite in_app_iff. right. rewrite E. now apply in_map.
Qed.

(** C5, as the code has it.  Keys that are not declared fields are
    never looked at: two wire mappings that agree on the declared
    field names decode alike, to the same instance or to the same
    exception; so a mapping with extra keys decodes whenever its
    declared entries resolve. *)
Theorem extra_keys_ignored (c : class) (d d' : dict) :
  (forall f, In f (fields S c) ->
             dict_get d' (f_name f) = dict_get d (f_name f)) ->
  from_json S c (VDict d') = from_json S c (VDict d) /\
  ((forall f, In f (fields S c) -> exists x, resolve S (VDict d) f = Ok x) ->
   exists r, from_json S c (VDict d') = Ok r).
Proof.
  intros Hagree.
  assert (E : from_json S c (VDict d') = from_json S c (VDict d)).
  { rewrite !from_json_spec. apply bind_ext; [| reflexivity].
    apply mapM_ext. intros f Hf. apply resolve_ext. now apply Hagree. }
  split; [exact E |]. intros Hres. rewrite E.
  destruct (from_json_all c (VDict d) Hres) as (xs & Hxs & _). eauto.
Qed.

(** ** Further properties of the engine *)

(** *** Which exceptions decoding raises *)

(** The exceptions a mapping can make [from_json] raise. *)
Local Notation decode_error e :=
  ((exists k, e = KeyError k) \/
   e = AttributeError "from_json" \/ e = AttributeError "__args__").

Lemma parse_raise_kind (v : value) :
  forall t e,
    _parse_field S t v = Raise e \/ parse_value S t v = Raise e ->
    decode_error e.
Proof.
  induction v as [| b | n | s | l IH | d IH | c a IH] using value_ind;
    intros t e H; try (destruct H as [H | H]; discriminate H).
  - destruct H as [H | H]; [discriminate H |].
    cbn [parse_value] in H. apply bind_raise in H.
    destruct H as [H | (arg & _ & H)].
    + destruct t; try discriminate H; inversion H; right; right; reflexivity.
    + apply bind_raise in H. destruct H as [H | (xs & _ & H)]; [| discriminate H].
      apply mapM_raise in H. destruct H as (pre & x & post & -> & _ & Hx).
      rewrite Forall_forall in IH. apply (IH x (in_elt x pre post) arg e). now left.
  - assert (H' : (c <- attr_from_json t ;; from_json S c (VDict d)) = Raise e)
      by (destruct H as [H | H]; exact H).
    clear H. apply bind_raise in H'. destruct H' as [H | (c & _ & H)].
    + destruct t; try discriminate H; inversion H; right; left; reflexivity.
    + apply from_json_raise in H. destruct H as (pre & f & post & _ & _ & H).
      unfold resolve in H. apply bind_raise in H.
      destruct H as [H | (v & Hv & H)].
      * cbn [getitem] in H. destruct (dict_get d (f_name f)); [discriminate H |].
        inversion H. left. now eexists.
      * cbn [getitem] in Hv. destruct (dict_get d (f_name f)) as [v' |] eqn:Hget;
          [| discriminate Hv]. inversion Hv; subst v'.
        rewrite Forall_forall in IH.
        apply (IH (f_name f, v) (dict_get_In _ _ _ Hget) (f_type f) e). now right.
Qed.

(** X1. Decoding a mapping raises nothing but [KeyError] and
    [AttributeError]: a missing key, at the top or in a nested record,
    or a [from_json] or [__args__] looked up on a type that has none.
    It never raises [TypeError]; the constructor call never fails. *)
Theorem mapping_decode_errors (c : class) (d : dict) (e : exn) :
  from_json S c (VDict d) = Raise e ->
  decode_error e /\ e <> TypeError.
Proof.
  intros H.
  assert (K : decode_error e).
  { apply (parse_raise_kind (VDict d) (TCls c) e). now left. }
  split; [exact K |].
  destruct K as [(k & ->) | [-> | ->]]; discriminate.
Qed.

(** X2. A wire value that is not a mapping cannot be decoded as a class
    that declares a field: the first subscript raises [TypeError]. *)
Theorem non_mapping_rejected (c : class) (json : value) :
  is_dict json = false ->
  fields S c <> [] ->
  from_json S c json = Raise TypeError.
Proof.
  intros Hd Hfs. rewrite from_json_spec.
  destruct (fields S c) as [| f fs]; [contradiction |].
  cbn [mapM]. unfold resolve at 1.
  destruct json; try discriminate Hd; reflexivity.
Qed.

(** X3. A sequence where none is declared.  When the wire value at the
    key of a field declared [int], [str] or a record class is a list,
    even an empty one, the field does not resolve ([__args__] is looked
    up on a type that has none) and decoding raises. *)
Theorem sequence_for_scalar_fails (c : class) (f : field) (d : dict)
  (l : list value) :
  In f (fields S c) ->
  scalar (f_type f) = true ->
  dict_get d (f_name f) = Some (VList l) ->
  resolve S (VDict d) f = Raise (AttributeError "__args__") /\
  raises (from_json S c (VDict d)).
Proof.
  intros Hf Hty Hget.
  assert (H : resolve S (VDict d) f = Raise (AttributeError "__args__")).
  { rewrite (resolve_sequence _ _ _ Hget). destruct (f_type f); try reflexivity.
    discriminate Hty. }
  split; [exact H |]. apply (from_json_raises_at c _ f Hf).
  now exists (AttributeError "__args__").
Qed.

(** X4. The exception of a nested record is that of the whole.  When a
    field declared as a sequence of records holds a list whose first
    element that fails to parse is a mapping on which the element
    class raises [e], and the fields declared before resolve, decoding
    raises that same [e]. *)
Theorem nested_error_propagates (c c' : class) (d m : dict)
  (pre post : list field) (f : field) (lpre lpost : list value) (e : exn) :
  fields S c = pre ++ f :: post ->
  (forall g, In g pre -> exists x, resolve S (VDict d) g = Ok x) ->
  f_type f = TList (TCls c') ->
  dict_get d (f_name f) = Some (VList (lpre ++ VDict m :: lpost)) ->
  (forall x, In x lpre -> exists y, _parse_field S (TCls c') x = Ok y) ->
  from_json S c' (VDict m) = Raise e ->
  from_json S c (VDict d) = Raise e.
Proof.
  intros Hfs Hpre Hty Hget Hlpre He.
  apply from_json_raise. exists pre, f, post.
  split; [exact Hfs |]. split; [exact Hpre |].
  rewrite (resolve_sequence _ _ _ Hget), Hty. cbn [args0 bind].
  apply bind_raise. left. apply mapM_raise.
  exists lpre, (VDict m), lpost. split; [reflexivity |]. split; [exact Hlpre |].
  exact He.
Qed.

(** *** What the wire does not carry *)

(** X5. The wire carries no class.  Two classes that declare the same
    fields decode every wire value alike: to instances with the same
    attributes, or to the same exception. *)
Theorem class_not_on_wire (c c' : class) (json : value) :
  fields S c = fields S c' ->
  (forall a, from_json S c json = Ok (VObj c a) <->
             from_json S c' json = Ok (VObj c' a)) /\
  (forall e, from_json S c json = Raise e <-> from_json S c' json = Raise e).
Proof.
  intros Hfs. rewrite !from_json_spec. unfold names. rewrite Hfs.
  destruct (mapM (resolve S json) (fields S c')) as [xs | e']; cbn [bind].
  - split.
    + intros a. split; intros H; inversion H; reflexivity.
    + intros e. split; discriminate.
  - split.
    + intros a. split; discriminate.
    + intros e. split; intros H; inversion H; reflexivity.
Qed.

Lemma dict_get_Permutation (d d' : dict) (k : string) :
  NoDup (keys d) -> Permutation d d' -> dict_get d' k = dict_get d k.
Proof.
  intros Hnd Hp.
  assert (Hnd' : NoDup (keys d')).
  { eapply Permutation_NoDup; [| exact Hnd]. unfold keys. now apply Permutation_map. }
  destruct (dict_get d k) as [v |] eqn:E.
  - apply dict_get_NoDup_In; [exact Hnd' |].
    eapply Permutation_in; [exact Hp |]. now apply dict_get_In.
  - destruct (dict_get d' k) as [v' |] eqn:E'; [| reflexivity].
    apply dict_get_In in E'. apply Permutation_sym in Hp.
    apply (Permutation_in _ Hp) in E'.
    apply (dict_get_NoDup_In _ _ _ Hnd) in E'. congruence.
Qed.

(** X6. The order of the keys of the wire mapping does not matter: a
    mapping with distinct keys and any reordering of it decode alike. *)
Theorem key_order_irrelevant (c : class) (d d' : dict) :
  NoDup (keys d) ->
  Permutation d d' ->
  from_json S c (VDict d') = from_json S c (VDict d).
Proof.
  intros Hnd Hp. rewrite !from_json_spec. apply bind_ext; [| reflexivity].
  apply mapM_ext. intros f _. apply resolve_ext.
  now apply dict_get_Permutation.
Qed.

(** *** JSON values through the encoder *)

Lemma mapM_id {A : Type} (f : A -> result A) (l : list A) :
  (forall a, In a l -> f a = Ok a) -> mapM f l = Ok l.
Proof.
  induction l as [| a l IH]; intros H; [reflexivity |].
  cbn [mapM]. rewrite (H a) by now left. cbn [bind].
  rewrite IH by (intros b Hb; apply H; now right). reflexivity.
Qed.

(** [_asdict_inner] copies a JSON value. *)
Lemma _asdict_inner_wire (v : value) :
  is_wire v = true -> _asdict_inner S v = Ok v.
Proof.
  induction v as [| b | n | s | l IH | d IH | c a IH] using value_ind;
    intros Hw; try reflexivity; try discriminate Hw.
  - rewrite _asdict_inner_list. cbn [is_wire] in Hw. rewrite forallb_forall in Hw.
    rewrite Forall_forall in IH. rewrite mapM_id; [reflexivity |].
    intros x Hx. apply IH; [exact Hx | now apply Hw].
  - rewrite _asdict_inner_dict. cbn [is_wire] in Hw. rewrite forallb_forall in Hw.
    rewrite Forall_forall in IH. rewrite mapM_id; [reflexivity |].
    intros [k x] Hx. cbn [fst snd].
    pose proof (IH (k, x) Hx (Hw (k, x) Hx)) as Hkx. cbn [snd] in Hkx.
    now rewrite Hkx.
Qed.

Lemma asdict_items_wire (c : class) (full : dict) :
  NoDup (keys full) ->
  (forall k x, In (k, x) full -> is_wire x = true) ->
  forall (a : dict) (fs : list field),
    incl a full -> keys a = map f_name fs ->
    mapM (asdict_item S c full) fs = Ok a.
Proof.
  intros Hnd Hw. induction a as [| [k x] a IH]; intros [| f fs] Hin Hk;
    try discriminate Hk; [reflexivity |].
  cbn in Hk. inversion Hk as [[Hk1 Hk2]]. subst k.
  assert (Hx : In (f_name f, x) full) by (apply Hin; now left).
  cbn [mapM]. unfold asdict_item at 1. cbn [getattr].
  rewrite (dict_get_NoDup_In full (f_name f) x Hnd Hx). cbn [bind].
  rewrite (_asdict_inner_wire x (Hw _ _ Hx)). cbn [bind].
  rewrite (IH fs); [reflexivity | | exact Hk2].
  intros y Hy. apply Hin. now right.
Qed.


(** *** Decoding, encoding and decoding again *)

Lemma redecode_obj (c : class) (json r : value) :
  (forall f x, In f (fields S c) -> resolve S json f = Ok x ->
     exists w, _asdict_inner S x = Ok w /\ parse_value S (f_type f) w = Ok x) ->
  from_json S c json = Ok r ->
  exists items,
    _asdict_inner S r = Ok (VDict items) /\ from_json S c (VDict items) = Ok r.
Proof.
  intros Hre Hr. pose proof Hr as Hr'. apply from_json_ok in Hr'.
  destruct Hr' as (xs & Hxs & Er).
  assert (Hitems : exists items,
    mapM (asdict_item S c (combine (names S c) xs)) (fields S c) = Ok items).
  { apply mapM_total. intros f Hf.
    destruct (from_json_field _ _ _ f Hr Hf) as (x & Hx & Hg).
    destruct (Hre f x Hf Hx) as (w & Hw & _).
    unfold asdict_item. rewrite <- Er, Hg. cbn [bind]. rewrite Hw. now eexists. }
  destruct Hitems as (items & Hitems). exists items. split.
  - rewrite Er, _asdict_inner_obj. unfold asdict_item in Hitems. now rewrite Hitems.
  - rewrite from_json_spec.
    rewrite (mapM_ext (resolve S (VDict items)) (resolve S json)).
    + rewrite Hxs. cbn [bind]. now rewrite Er.
    + intros f Hf. apply mapM_ok in Hitems.
      destruct (from_json_field _ _ _ f Hr Hf) as (x & Hx & Hg).
      destruct (Hre f x Hf Hx) as (w & Hw & Hp).
      destruct (Forall2_In_nth _ _ _ f Hitems Hf) as (i & item & _ & Hi & Hitem).
      unfold asdict_item in Hitem. rewrite <- Er, Hg in Hitem. cbn [bind] in Hitem.
      rewrite Hw in Hitem. inversion Hitem; subst item.
      rewrite Hx. unfold resolve. cbn [getitem].
      rewrite (dict_get_NoDup_In items (f_name f) w).
      * exact Hp.
      * rewrite (asdict_items_keys _ _ _ _ Hitems). apply fields_nodup.
      * eapply nth_error_In, Hi.
Qed.

Lemma redecode_value (v : value) :
  is_wire v = true ->
  forall t x,
    (_parse_field S t v = Ok x ->
       exists w, _asdict_inner S x = Ok w /\ _parse_field S t w = Ok x) /\
    (parse_value S t v = Ok x ->
       exists w, _asdict_inner S x = Ok w /\ parse_value S t w = Ok x).
Proof.
  induction v as [| b | n | s | l IH | d IH | c a IH] using value_ind;
    intros Hw t x; try discriminate Hw;
    try (split; intros H; inversion H; subst x; eexists; split; reflexivity).
  - cbn [is_wire] in Hw. rewrite forallb_forall in Hw. rewrite Forall_forall in IH.
    split; intros H.
    + inversion H; subst x. exists (VList l). split; [| reflexivity].
      apply _asdict_inner_wire. cbn [is_wire]. now apply forallb_forall.
    + cbn [parse_value] in H. apply bind_ok in H. destruct H as (arg & Harg & H).
      apply bind_ok in H. destruct H as (xs & Hxs & H). inversion H; subst x. clear H.
      assert (G : exists ws, mapM (_asdict_inner S) xs = Ok ws /\
                             mapM (_parse_field S arg) ws = Ok xs).
      { apply mapM_ok in Hxs. clear Harg.
        induction Hxs as [| y x l xs Hyx _ IHl].
        - now exists [].
        - destruct (IH y (or_introl eq_refl) (Hw y (or_introl eq_refl)) arg x)
            as [Hy _].
          destruct (Hy Hyx) as (w & Hxw & Hwx).
          destruct IHl as (ws & Hws & Hws').
          + intros z Hz. apply IH. now right.
          + intros z Hz. apply Hw. now right.
          + exists (w :: ws). cbn [mapM]. now rewrite Hxw, Hws, Hwx, Hws'. }
      destruct G as (ws & Hws & Hws'). exists (VList ws). split.
      * rewrite _asdict_inner_list. now rewrite Hws.
      * cbn [parse_value]. rewrite Harg. cbn [bind]. now rewrite Hws'.
  - cbn [is_wire] in Hw. rewrite forallb_forall in Hw. rewrite Forall_forall in IH.
    assert (G : (c <- attr_from_json t ;; from_json S c (VDict d)) = Ok x ->
                exists w, _asdict_inner S x = Ok w /\
                          (c <- attr_from_json t ;; from_json S c w) = Ok x /\
                          is_dict w = true).
    { intros H. apply bind_ok in H. destruct H as (c & Hc & H). rewrite Hc. cbn [bind].
      destruct (redecode_obj c (VDict d) x) as (items & Hi & Hi'); [| exact H |].
      - intros f y _ Hy. unfold resolve in Hy. apply bind_ok in Hy.
        destruct Hy as (v & Hv & Hy). cbn [getitem] in Hv.
        destruct (dict_get d (f_name f)) as [v' |] eqn:Hget; [| discriminate Hv].
        inversion Hv; subst v'. apply dict_get_In in Hget.
        destruct (IH _ Hget (Hw _ Hget) (f_type f) y) as [_ Hpv]. now apply Hpv.
      - exists (VDict items). now repeat split. }
    split; intros H; destruct (G H) as (w & Hxw & Hwx & Hd); exists w;
      (split; [exact Hxw |]); destruct w; try discriminate Hd; exact Hwx.
Qed.


(** *** Wire values of the declared shape *)

Lemma Forall2_impl_In {A B : Type} (R Q : A -> B -> Prop) (l : list A)
  (l' : list B) :
  Forall2 R l l' ->
  (forall a b, In a l -> In b l' -> R a b -> Q a b) ->
  Forall2 Q l l'.
Proof.
  induction 1 as [| a b l l' Hab _ IH]; intros H; constructor.
  - apply H; [now left | now left | exact Hab].
  - apply IH. intros x y Hx Hy. apply H; now right.
Qed.

Lemma Forall2_swap {A B : Type} (R : A -> B -> Prop) (l : list A) (l' : list B) :
  Forall2 R l l' -> Forall2 (fun b a => R a b) l' l.
Proof.
  induction 1; now constructor.
Qed.

Lemma conforms_dict (d : dict) (c : class) :
  conforms S (VDict d) (TCls c) =
  forallb (fun f =>
             match dict_get d (f_name f) with
             | Some x => conforms S x (f_type f)
             | None => false
             end) (fields S c).
Proof.
  cbn [conforms]. induction (fields S c) as [| f fs IH]; [reflexivity |].
  cbn [forallb]. f_equal; [| exact IH]. clear IH.
  induction d as [| [k x] d IHd]; [reflexivity |].
  cbn [dict_get]. destruct (String.eqb (f_name f) k); [reflexivity | exact IHd].
Qed.

Lemma canonical_dict (d : dict) (c : class) :
  canonical S (VDict d) (TCls c) = items_canonical S d (fields S c).
Proof.
  cbn [canonical]. generalize (fields S c) as fs.
  induction d as [| [k x] d IH]; intros [| f fs]; reflexivity.
Qed.

Lemma items_canonical_Forall2 (a : dict) (fs : list field) :
  items_canonical S a fs = true <->
  Forall2 (fun kv f => fst kv = f_name f /\ canonical S (snd kv) (f_type f) = true)
          a fs.
Proof.
  revert fs. induction a as [| [k x] a IH]; intros [| f fs]; cbn.
  - split; [constructor | reflexivity].
  - split; [discriminate | intros H; inversion H].
  - split; [discriminate | intros H; inversion H].
  - rewrite !andb_true_iff, IH, String.eqb_eq. split.
    + intros [[Hk Hx] Hr]. now constructor.
    + intros H. inversion H; subst. cbn in *. tauto.
Qed.

Lemma attrs_typed_intro (fs : list field) (xs : list value) :
  Forall2 (fun f x => has_type S x (f_type f) = true) fs xs ->
  attrs_typed S (combine (map f_name fs) xs) fs = true.
Proof.
  induction 1 as [| f x fs xs Hx _ IH]; [reflexivity |].
  cbn. now rewrite String.eqb_refl, Hx, IH.
Qed.

Lemma has_type_obj_intro (c : class) (a : dict) :
  attrs_typed S a (fields S c) = true -> has_type S (VObj c a) (TCls c) = true.
Proof.
  intros H. rewrite has_type_obj.
  destruct (class_eq_dec S c c) as [_ | Hne]; [exact H | contradiction].
Qed.

(** A conforming wire value is read into a value of the declared type. *)
Lemma conforms_parse (Hsup : schema_supported S) (v : value) :
  forall t, conforms S v t = true ->
    (scalar t = true ->
       exists x, _parse_field S t v = Ok x /\ has_type S x t = true) /\
    (supported t = true ->
       exists x, parse_value S t v = Ok x /\ has_type S x t = true).
Proof.
  induction v as [| b | n | s | l IH | d IH | c a IH] using value_ind;
    intros t Hc; try (destruct t; discriminate Hc).
  - destruct t; try discriminate Hc. split; intros _; now eexists.
  - destruct t; try discriminate Hc. split; intros _; now eexists.
  - destruct t; try discriminate Hc. split; intros _; now eexists.
  - destruct t as [| | arg |]; try discriminate Hc. cbn [conforms] in Hc.
    split; [discriminate |]. cbn [supported]. intros Harg.
    rewrite forallb_forall in Hc. rewrite Forall_forall in IH.
    assert (G : exists xs, mapM (_parse_field S arg) l = Ok xs /\
                           forallb (fun x => has_type S x arg) xs = true).
    { clear -IH Hc Harg. induction l as [| v l IHl].
      - now exists [].
      - destruct (IH v (or_introl eq_refl) arg (Hc v (or_introl eq_refl)))
          as [Hv _].
        destruct (Hv Harg) as (x & Hx & Hty).
        destruct IHl as (xs & Hxs & Htys).
        + intros z Hz. apply IH. now right.
        + intros z Hz. apply Hc. now right.
        + exists (x :: xs). cbn [mapM forallb]. now rewrite Hx, Hxs, Hty, Htys. }
    destruct G as (xs & Hxs & Htys). exists (VList xs).
    cbn [parse_value args0 bind]. now rewrite Hxs.
  - destruct t as [| | | c]; try discriminate Hc.
    rewrite conforms_dict in Hc. rewrite forallb_forall in Hc.
    rewrite Forall_forall in IH.
    assert (Hres : forall f, In f (fields S c) ->
              exists x, resolve S (VDict d) f = Ok x /\
                        has_type S x (f_type f) = true).
    { intros f Hf. specialize (Hc f Hf).
      destruct (dict_get d (f_name f)) as [v |] eqn:Hget; [| discriminate Hc].
      destruct (IH _ (dict_get_In _ _ _ Hget) (f_type f) Hc) as [_ Hpv].
      destruct (Hpv (Hsup c f Hf)) as (x & Hx & Hty).
      exists x. split; [| exact Hty]. unfold resolve. cbn [getitem].
      now rewrite Hget. }
    assert (G : exists x, from_json S c (VDict d) = Ok x /\
                          has_type S x (TCls c) = true).
    { destruct (mapM_total (resolve S (VDict d)) (fields S c)) as (xs & Hxs).
      - intros f Hf. destruct (Hres f Hf) as (x & Hx & _). now exists x.
      - exists (VObj c (combine (names S c) xs)). split.
        + apply from_json_ok. now exists xs.
        + apply has_type_obj_intro, attrs_typed_intro.
          apply mapM_ok in Hxs.
          apply (Forall2_impl_In _ _ _ _ Hxs). intros f x Hf _ Hx.
          destruct (Hres f Hf) as (x' & Hx' & Hty). congruence. }
    destruct G as (x & Hx & Hty).
    split; intros _; exists x; (split; [| exact Hty]); exact Hx.
Qed.

Lemma items_canonical_keys (a : dict) (fs : list field) :
  items_canonical S a fs = true -> keys a = map f_name fs.
Proof.
  unfold keys. rewrite items_canonical_Forall2.
  induction 1 as [| kv f a fs [Hk _] _ IH]; cbn; [reflexivity | now rewrite Hk, IH].
Qed.

(** A canonical mapping holds, under each declared name, a canonical
    value of the field's type. *)
Lemma items_canonical_field (a : dict) (fs : list field) (f : field) :
  items_canonical S a fs = true -> NoDup (map f_name fs) -> In f fs ->
  exists x, In (f_name f, x) a /\ dict_get a (f_name f) = Some x /\
            canonical S x (f_type f) = true.
Proof.
  intros Hc Hnd Hf. pose proof (items_canonical_keys _ _ Hc) as Hk.
  apply items_canonical_Forall2, Forall2_swap in Hc.
  destruct (Forall2_In_nth _ _ _ f Hc Hf) as (i & [k x] & _ & Hi & Hkx & Hx).
  cbn [fst snd] in *. subst k. apply nth_error_In in Hi.
  exists x. split; [exact Hi |]. split; [| exact Hx].
  apply dict_get_NoDup_In; [now rewrite Hk | exact Hi].
Qed.

Lemma canonical_conforms (v : value) :
  forall t, canonical S v t = true -> conforms S v t = true.
Proof.
  induction v as [| b | n | s | l IH | d IH | c a IH] using value_ind;
    intros t Hc; try (destruct t; discriminate Hc);
    try (destruct t; try discriminate Hc; reflexivity).
  - destruct t as [| | arg |]; try discriminate Hc. cbn [canonical conforms] in *.
    rewrite forallb_forall in *. rewrite Forall_forall in IH.
    intros x Hx. apply IH; [exact Hx | now apply Hc].
  - destruct t as [| | | c]; try discriminate Hc.
    rewrite canonical_dict in Hc. rewrite conforms_dict.
    apply forallb_forall. intros f Hf. rewrite Forall_forall in IH.
    destruct (items_canonical_field _ _ f Hc (fields_nodup S c) Hf)
      as (x & Hin & Hget & Hx).
    rewrite Hget. apply (IH _ Hin). exact Hx.
Qed.

(** Encoding what a canonical wire value was read into gives it back. *)
Lemma canonical_parse (Hsup : schema_supported S) (v : value) :
  forall t x, canonical S v t = true ->
    (scalar t = true -> _parse_field S t v = Ok x -> _asdict_inner S x = Ok v) /\
    (supported t = true -> parse_value S t v = Ok x -> _asdict_inner S x = Ok v).
Proof.
  induction v as [| b | n | s | l IH | d IH | c a IH] using value_ind;
    intros t x Hc; try (destruct t; discriminate Hc);
    try (split; intros _ H; inversion H; reflexivity).
  - destruct t as [| | arg |]; try discriminate Hc. cbn [canonical] in Hc.
    split; [discriminate |]. cbn [supported]. intros Harg H.
    cbn [parse_value args0 bind] in H. apply bind_ok in H.
    destruct H as (xs & Hxs & H). inversion H; subst x. clear H.
    rewrite _asdict_inner_list.
    replace (mapM (_asdict_inner S) xs) with (Ok (A := list value) l);
      [reflexivity |].
    symmetry. apply mapM_ok. apply mapM_ok, Forall2_swap in Hxs.
    rewrite forallb_forall in Hc. rewrite Forall_forall in IH.
    apply (Forall2_impl_In _ _ _ _ Hxs). intros x v _ Hv Hvx.
    destruct (IH v Hv arg x (Hc v Hv)) as [H _]. now apply H.
  - destruct t as [| | | c]; try discriminate Hc.
    rewrite canonical_dict in Hc. rewrite Forall_forall in IH.
    assert (G : from_json S c (VDict d) = Ok x -> _asdict_inner S x = Ok (VDict d)).
    { intros Hx. pose proof Hx as Hx'. apply from_json_ok in Hx'.
      destruct Hx' as (xs & _ & Ex).
      rewrite Ex, _asdict_inner_obj. rewrite <- Ex.
      match goal with |- context [mapM ?h _] =>
        replace (mapM h (fields S c)) with (Ok (A := dict) d) end;
        [reflexivity |].
      symmetry. apply mapM_ok.
      pose proof (proj1 (items_canonical_Forall2 _ _) Hc) as HF.
      apply Forall2_swap in HF.
      apply (Forall2_impl_In _ _ _ _ HF). intros f [k v] Hf Hkv [Hk _].
      cbn [fst snd] in Hk. subst k.
      destruct (from_json_field _ _ _ f Hx Hf) as (y & Hy & Hg).
      destruct (items_canonical_field _ _ f Hc (fields_nodup S c) Hf)
        as (v' & _ & Hget & Hv').
      assert (v' = v) as ->.
      { pose proof (items_canonical_keys _ _ Hc) as Hkeys.
        rewrite (dict_get_NoDup_In d (f_name f) v) in Hget.
        - now inversion Hget.
        - rewrite Hkeys. apply fields_nodup.
        - exact Hkv. }
      unfold resolve in Hy. cbn [getitem] in Hy. rewrite Hget in Hy.
      cbn [bind] in Hy.
      destruct (IH _ Hkv (f_type f) y Hv') as [_ Hpv].
      rewrite Hg. cbn [bind]. rewrite (Hpv (Hsup c f Hf) Hy). reflexivity. }
    split; intros _ H; apply G; exact H.
Qed.

(** The encoding of a value of a declared type is canonical. *)
Lemma encoded_canonical (v : value) :
  forall t w, has_type S v t = true -> _asdict_inner S v = Ok w ->
              canonical S w t = true.
Proof.
  induction v as [| b | n | s | l IH | d IH | c a IH] using value_ind;
    intros t w Ht Hw; try (destruct t; discriminate Ht);
    try (destruct t; try discriminate Ht; inversion Hw; reflexivity).
  - destruct t as [| | arg |]; try discriminate Ht. cbn [has_type] in Ht.
    rewrite _asdict_inner_list in Hw. apply bind_ok in Hw.
    destruct Hw as (ws & Hws & Hw). inversion Hw; subst w. clear Hw.
    cbn [canonical]. apply forallb_forall. intros w Hw.
    apply mapM_ok, Forall2_swap in Hws.
    destruct (Forall2_In_nth _ _ _ w Hws Hw) as (i & x & _ & Hi & Hxw).
    apply nth_error_In in Hi. rewrite forallb_forall in Ht.
    rewrite Forall_forall in IH. apply (IH x Hi arg w (Ht x Hi) Hxw).
  - destruct t as [| | | c']; try discriminate Ht.
    rewrite has_type_obj in Ht.
    destruct (class_eq_dec S c c') as [<- | _]; [| discriminate Ht].
    rewrite _asdict_inner_obj in Hw. apply bind_ok in Hw.
    destruct Hw as (items & Hitems & Hw). inversion Hw; subst w. clear Hw.
    rewrite canonical_dict. apply items_canonical_Forall2.
    apply mapM_ok, Forall2_swap in Hitems.
    apply (Forall2_impl_In _ _ _ _ Hitems). intros item f _ Hf Hitem.
    destruct (attrs_typed_field _ _ f Ht (fields_nodup S c) Hf) as (x & Hget & Hx).
    cbn [getattr] in Hitem. rewrite Hget in Hitem. cbn [bind] in Hitem.
    apply bind_ok in Hitem. destruct Hitem as (w & Hw & Hitem).
    inversion Hitem; subst item. cbn [fst snd]. split; [reflexivity |].
    rewrite Forall_forall in IH.
    apply (IH _ (dict_get_In _ _ _ Hget) (f_type f) w Hx Hw).
Qed.

(** X9. A wire mapping of the declared shape decodes.  When the
    mapping holds, under every declared field name, a value of the
    field's shape (in any key order, with any other keys), decoding
    succeeds and returns a validly constructed instance. *)
Theorem conforming_decodes (Hsup : schema_supported S) (c : class) (w : value) :
  conforms S w (TCls c) = true ->
  exists r, from_json S c w = Ok r /\ has_type S r (TCls c) = true.
Proof.
  intros Hc. destruct (conforms_parse Hsup w (TCls c) Hc) as [H _].
  destruct (H eq_refl) as (r & Hr & Ht). exists r. split; [| exact Ht].
  destruct w; try discriminate Hc. exact Hr.
Qed.

(** X10. Encoding undoes decoding on canonical wire values.  When the
    mapping holds exactly the declared field names in declaration
    order, at every level, decoding it and encoding the instance
    returns the mapping itself. *)
Theorem encode_decode (Hsup : schema_supported S) (c : class) (w : value) :
  canonical S w (TCls c) = true ->
  exists r, from_json S c w = Ok r /\
            has_type S r (TCls c) = true /\
            to_json S r = Ok w.
Proof.
  intros Hc. pose proof (canonical_conforms w _ Hc) as Hcf.
  destruct (conforms_parse Hsup w (TCls c) Hcf) as [H _].
  destruct (H eq_refl) as (r & Hr & Ht).
  destruct (canonical_parse Hsup w (TCls c) r Hc) as [H' _].
  pose proof (H' eq_refl Hr) as Hw.
  exists r. destruct w; try discriminate Hc. split; [exact Hr |].
  split; [exact Ht |].
  destruct r; try discriminate Ht. exact Hw.
Qed.

(** X11. What the encoder produces.  The encoding of a validly
    constructed instance is canonical: at every level its mappings
    hold exactly the declared field names, in declaration order, and
    its lists the encodings of the elements. *)
Theorem encoding_is_canonical (c : class) (r w : value) :
  has_type S r (TCls c) = true ->
  to_json S r = Ok w ->
  canonical S w (TCls c) = true.
Proof.
  intros Ht Hw. destruct r; try discriminate Ht.
  apply (encoded_canonical _ _ _ Ht Hw).
Qed.

(** X12. The encoding determines the instance: two validly constructed
    instances of one class with the same encoding are equal. *)
Theorem to_json_injective (Hsup : schema_supported S) (c : class)
  (r1 r2 : value) :
  has_type S r1 (TCls c) = true ->
  has_type S r2 (TCls c) = true ->
  to_json S r1 = to_json S r2 ->
  r1 = r2.
Proof.
  intros H1 H2 E.
  destruct (decode_encode Hsup c r1 H1) as (i1 & Hw1 & Hr1).
  destruct (decode_encode Hsup c r2 H2) as (i2 & Hw2 & Hr2).
  rewrite Hw1, Hw2 in E. inversion E; subst i2. congruence.
Qed.

(** *** When a class of primitive fields accepts a mapping *)

(** X13. For a class all of whose fields are declared [int] or [str],
    decoding a mapping succeeds exactly when every declared field name
    is a key whose value is neither a mapping nor a list; the value's
    own type is not looked at. *)
Theorem flat_decode_accepts (c : class) (d : dict) :
  (forall f, In f (fields S c) -> f_type f = TInt \/ f_type f = TStr) ->
  ((exists r, from_json S c (VDict d) = Ok r) <->
   (forall f, In f (fields S c) ->
      exists v, dict_get d (f_name f) = Some v /\ primitive v = true)).
Proof.
  intros Hflat. split.
  - intros (r & Hr) f Hf.
    destruct (from_json_field _ _ _ f Hr Hf) as (x & Hx & _).
    unfold resolve in Hx. cbn [getitem] in Hx.
    destruct (dict_get d (f_name f)) as [v |]; [| discriminate Hx].
    exists v. split; [reflexivity |]. cbn [bind] in Hx.
    destruct (Hflat f Hf) as [Hty | Hty]; rewrite Hty in Hx;
      destruct v; try reflexivity; discriminate Hx.
  - intros H. destruct (from_json_all c (VDict d)) as (xs & Hxs & _); [| eauto].
    intros f Hf. destruct (H f Hf) as (v & Hget & Hp).
    exists v. now apply resolve_primitive.
Qed.

End EngineFacts.

(** ** The declared record types *)

Lemma protocol_supported : schema_supported protocol.
Proof.
  intros c f Hf. destruct c; cbn in Hf;
    repeat (destruct Hf as [<- | Hf]; [reflexivity |]); contradiction.
Qed.

(** C1. Round trip.  For each of the sixteen declared record types and
    every instance of it whose attributes are the declared fields with
    values of their declared types, encoding succeeds and decoding the
    encoding at that type returns the instance itself. *)
Theorem roundtrip (c : cls) (r : wire) :
  has_type protocol r (TCls c) = true ->
  exists w, to_json protocol r = Ok w /\ from_json protocol c w = Ok r.
Proof.
  intros Ht.
  destruct (decode_encode protocol protocol_supported c r Ht) as (items & Hw & Hr).
  now exists (VDict items).
Qed.

(** C6. Sequences keep their order.  For a declared field of sequence
    type ([chats], [users], [messages], [user_ids]) of a valid instance
    holding the list [l]: the encoding holds under the field's name a
    list [ws] of the same length whose i-th element is the encoding of
    the i-th element of [l]; decoding reads [ws] back element by
    element into [l]; and for any wire mapping holding a list [ws']
    under the field's name, the field resolves to the list of the
    element-wise parses of [ws'], position by position. *)
Theorem sequence_order (c : cls) (f : field cls) (arg : ty cls)
  (r : wire) (l : list wire) :
  In f (protocol_fields c) ->
  f_type f = TList arg ->
  has_type protocol r (TCls c) = true ->
  getattr r (f_name f) = Ok (VList l) ->
  (exists items ws,
      to_json protocol r = Ok (VDict items) /\
      dict_get items (f_name f) = Some (VList ws) /\
      Forall2 (fun x w => _asdict_inner protocol x = Ok w) l ws /\
      Forall2 (fun w x => _parse_field protocol arg w = Ok x) ws l /\
      exists r', from_json protocol c (VDict items) = Ok r' /\
                 getattr r' (f_name f) = Ok (VList l)) /\
  (forall (d : dict cls) (ws' : list wire),
      dict_get d (f_name f) = Some (VList ws') ->
      resolve protocol (VDict d) f =
        (xs <- mapM (_parse_field protocol arg) ws' ;; Ok (VList xs)) /\
      forall r', from_json protocol c (VDict d) = Ok r' ->
        exists xs, getattr r' (f_name f) = Ok (VList xs) /\
                   Forall2 (fun w x => _parse_field protocol arg w = Ok x) ws' xs).
Proof.
  intros Hf Hty Ht Hl. split.
  - destruct (encode_field protocol c r (VList l) f Ht Hf Hl)
      as (items & w & Hw & Hget & Hxw & Htl).
    destruct (decode_encode protocol protocol_supported c r Ht)
      as (items' & Hw' & Hr).
    rewrite Hw in Hw'. inversion Hw'; subst items'. clear Hw'.
    rewrite _asdict_inner_list in Hxw.
    apply bind_ok in Hxw. destruct Hxw as (ws & Hws & Hxw).
    inversion Hxw; subst w. clear Hxw.
    exists items, ws. split; [exact Hw |]. split; [exact Hget |].
    apply mapM_ok in Hws. split; [exact Hws |]. split; [| eauto].
    rewrite Hty in Htl. cbn [has_type] in Htl. rewrite forallb_forall in Htl.
    assert (Harg : scalar arg = true).
    { pose proof (protocol_supported c f Hf) as Hs. now rewrite Hty in Hs. }
    clear Hl Hget. induction Hws as [| x w l ws Hxw _ IH]; constructor.
    + destruct (roundtrip_value protocol protocol_supported x arg w) as [H _];
        auto. apply Htl. now left.
    + apply IH. intros y Hy. apply Htl. now right.
  - intros d ws' Hget.
    assert (Hres : resolve protocol (VDict d) f =
                   (xs <- mapM (_parse_field protocol arg) ws' ;; Ok (VList xs))).
    { rewrite (resolve_sequence _ _ _ _ Hget). now rewrite Hty. }
    split; [exact Hres |]. intros r' Hr'.
    destruct (from_json_field protocol c _ _ f Hr' Hf) as (x & Hx & Hg).
    rewrite Hres in Hx. apply bind_ok in Hx. destruct Hx as (xs & Hxs & Hx).
    inversion Hx; subst x. exists xs. split; [exact Hg |]. now apply mapM_ok.
Qed.

(** ** The examples of the specification *)

Example nested_record_encodes :
  to_json protocol chats_AB = Ok chats_AB_wire.
Proof. reflexivity. Qed.

Example nested_record_decodes :
  from_json protocol GetChatsResponse chats_AB_wire = Ok chats_AB.
Proof. reflexivity. Qed.

Example empty_sequence :
  to_json protocol (VObj GetMessagesResponse [("messages", VList [])])
    = Ok (VDict [("messages", VList [])]) /\
  from_json protocol GetMessagesResponse (VDict [("messages", VList [])])
    = Ok (VObj GetMessagesResponse [("messages", VList [])]).
Proof. split; reflexivity. Qed.

Example empty_mapping_names_user_id :
  from_json protocol InsertUserResponse (VDict []) = Raise (KeyError "user_id").
Proof. reflexivity. Qed.

Example extra_key_example :
  from_json protocol InsertUserResponse (VDict user_id_5_extra)
    = Ok (VObj InsertUserResponse [("user_id", VInt 5)]).
Proof. reflexivity. Qed.

Example flat_element_not_coerced :
  from_json protocol GetChatsResponse
    (VDict [("chats", VList [VInt 3; VDict [("chat_id", VInt 1);
                                            ("chat_name", VStr "A")]])])
    = Ok (VObj GetChatsResponse [("chats", VList [VInt 3; chat 1 "A"])]).
Proof. reflexivity. Qed.

Example not_a_mapping :
  from_json protocol InsertUserResponse (VList []) = Raise TypeError.
Proof. reflexivity. Qed.

(** ** Instances of the theorems and inputs on which the specification
       and the code part *)

Lemma roundtrip_witness :
  has_type protocol chats_AB (TCls GetChatsResponse) = true /\
  exists w, to_json protocol chats_AB = Ok w /\
            from_json protocol GetChatsResponse w = Ok chats_AB.
Proof.
  split; [reflexivity | apply (roundtrip GetChatsResponse chats_AB); reflexivity].
Defined.

Lemma to_json_total_witness :
  has_type protocol three_messages (TCls GetMessagesResponse) = true /\
  exists items, to_json protocol three_messages = Ok (VDict items) /\
                keys items = names protocol GetMessagesResponse.
Proof.
  split; [reflexivity |].
  apply (to_json_total protocol GetMessagesResponse three_messages); reflexivity.
Defined.

Lemma only_mappings_are_decoded_witness :
  is_dict (VInt 7 : wire) = false /\
  (forall t, _parse_field protocol t (VInt 7) = Ok (VInt 7)) /\
  resolve protocol (VDict users_7) ("users" ::: TList (TCls User)) = Ok (VInt 7) /\
  forall r, from_json protocol GetParticipantsResponse (VDict users_7) = Ok r ->
            getattr r "users" = Ok (VInt 7).
Proof.
  split; [reflexivity |].
  destruct (only_mappings_are_decoded protocol GetParticipantsResponse
              ("users" ::: TList (TCls User)) users_7 (VInt 7))
    as (H1 & H2 & _); [left; reflexivity | reflexivity | reflexivity |].
  split; [exact H1 | apply H2; reflexivity].
Defined.

Lemma mapping_for_primitive_fails_witness :
  resolve protocol (VDict user_id_mapping) ("user_id" ::: int)
    = Raise (AttributeError "from_json") /\
  raises (from_json protocol InsertUserResponse (VDict user_id_mapping)).
Proof.
  apply (mapping_for_primitive_fails protocol InsertUserResponse
           ("user_id" ::: int) user_id_mapping []);
    [left; reflexivity | left; reflexivity | reflexivity].
Defined.

Lemma sequence_field_shape_witness :
  is_list (VStr "not-an-array" : wire) = false /\
  resolve protocol (VDict not_an_array) ("chats" ::: TList (TCls Chat))
    = Ok (VStr "not-an-array") /\
  forall r, from_json protocol GetChatsResponse (VDict not_an_array) = Ok r ->
            getattr r "chats" = Ok (VStr "not-an-array").
Proof.
  split; [reflexivity |].
  destruct (sequence_field_shape protocol GetChatsResponse
              ("chats" ::: TList (TCls Chat)) (TCls Chat) not_an_array
              (VStr "not-an-array")) as [_ H];
    [left; reflexivity | reflexivity | reflexivity | reflexivity |].
  apply H. reflexivity.
Defined.

(** C2 fails on the code: [{"chats": "not-an-array"}] decodes as
    [GetChatsResponse], to an instance whose [chats] is the string. *)
Lemma not_an_array_decodes :
  from_json protocol GetChatsResponse (VDict not_an_array)
    = Ok (VObj GetChatsResponse [("chats", VStr "not-an-array")]) /\
  ~ raises (from_json protocol GetChatsResponse (VDict not_an_array)).
Proof.
  split; [reflexivity |]. intros (e & H). discriminate H.
Qed.

Lemma missing_field_error_witness :
  dict_get ([] : dict cls) "user_id" = None /\
  from_json protocol InsertUserResponse (VDict [])
    = Raise (KeyError "user_id").
Proof.
  split; [reflexivity |].
  apply (missing_field_error protocol InsertUserResponse [] [] []
           ("user_id" ::: int)); [reflexivity | reflexivity |].
  intros g [].
Defined.

(** C3 fails on the code: [{"chat_name": {}}] has no key [user_ids],
    and decoding it as [InsertChatRequest] raises the [AttributeError]
    of [chat_name], not a [KeyError]. *)
Lemma missing_field_masked :
  In ("user_ids" ::: TList int) (fields protocol InsertChatRequest) /\
  dict_get chat_name_mapping "user_ids" = None /\
  from_json protocol InsertChatRequest (VDict chat_name_mapping)
    = Raise (AttributeError "from_json") /\
  ~ exists k, from_json protocol InsertChatRequest (VDict chat_name_mapping)
              = Raise (KeyError k).
Proof.
  split; [right; left; reflexivity |]. split; [reflexivity |].
  split; [reflexivity |]. intros (k & H). discriminate H.
Qed.

Lemma first_missing_field_witness :
  dict_get message_id_7 "chat_id" = None /\
  dict_get message_id_7 "message_ts" = None /\
  from_json protocol Message (VDict message_id_7) = Raise (KeyError "chat_id").
Proof.
  split; [reflexivity |]. split; [reflexivity |].
  apply (first_missing_field protocol Message message_id_7
           [ "message_id" ::: int ]
           [ "user_id" ::: int; "message_text" ::: str; "message_ts" ::: int ]
           ("chat_id" ::: int) ("message_ts" ::: int));
    [reflexivity | | reflexivity | right; right; left; reflexivity | reflexivity].
  intros h [<- | []]. exists (VInt 7). reflexivity.
Defined.

(** C9 fails on the code: [{"message_id": {}}] lacks [chat_id],
    [user_id], [message_text] and [message_ts]; decoding it as
    [Message] raises the [AttributeError] of [message_id] and names no
    missing field. *)
Lemma first_missing_masked :
  dict_get message_id_mapping "chat_id" = None /\
  dict_get message_id_mapping "user_id" = None /\
  from_json protocol Message (VDict message_id_mapping)
    = Raise (AttributeError "from_json") /\
  from_json protocol Message (VDict message_id_mapping)
    <> Raise (KeyError "chat_id").
Proof.
  repeat split; try reflexivity. discriminate.
Qed.

Lemma extra_keys_ignored_witness :
  from_json protocol InsertUserResponse (VDict user_id_5_extra)
    = from_json protocol InsertUserResponse (VDict user_id_5) /\
  exists r, from_json protocol InsertUserResponse (VDict user_id_5_extra) = Ok r.
Proof.
  destruct (extra_keys_ignored protocol InsertUserResponse user_id_5 user_id_5_extra)
    as [E H].
  - intros f [<- | []]. reflexivity.
  - split; [exact E |]. apply H.
    intros f [<- | []]. exists (VInt 5). reflexivity.
Defined.

(** C5 fails on the code: [{"user_id": {}, "unexpected": true}] holds
    every declared field name of [InsertUserResponse] and one more key,
    and decoding it raises. *)
Lemma extra_keys_may_fail :
  (forall f, In f (fields protocol InsertUserResponse) ->
             dict_get user_id_mapping_extra (f_name f) <> None) /\
  from_json protocol InsertUserResponse (VDict user_id_mapping_extra)
    = Raise (AttributeError "from_json") /\
  ~ exists r, from_json protocol InsertUserResponse (VDict user_id_mapping_extra)
              = Ok r.
Proof.
  split; [intros f [<- | []]; discriminate |].
  split; [reflexivity |]. intros (r & H). discriminate H.
Qed.

Lemma sequence_order_witness :
  has_type protocol three_messages (TCls GetMessagesResponse) = true /\
  getattr three_messages "messages" = Ok (VList messages_123) /\
  exists items ws,
    to_json protocol three_messages = Ok (VDict items) /\
    dict_get items "messages" = Some (VList ws) /\
    Forall2 (fun x w => _asdict_inner protocol x = Ok w) messages_123 ws /\
    Forall2 (fun w x => _parse_field protocol (TCls Message) w = Ok x)
            ws messages_123 /\
    exists r', from_json protocol GetMessagesResponse (VDict items) = Ok r' /\
               getattr r' "messages" = Ok (VList messages_123).
Proof.
  split; [reflexivity |]. split; [reflexivity |].
  apply (sequence_order GetMessagesResponse
           ("messages" ::: TList (TCls Message)) (TCls Message)
           three_messages messages_123);
    [left; reflexivity | reflexivity | reflexivity | reflexivity].
Defined.

(** ** Instances of the further properties *)

Lemma mapping_decode_errors_witness :
  from_json protocol InsertUserResponse (VDict []) = Raise (KeyError "user_id") /\
  KeyError "user_id" <> TypeError.
Proof.
  split; [reflexivity |].
  apply (mapping_decode_errors protocol InsertUserResponse [] (KeyError "user_id")).
  reflexivity.
Defined.

Lemma non_mapping_rejected_witness :
  is_dict (VList [] : wire) = false /\
  from_json protocol InsertUserResponse (VList []) = Raise TypeError.
Proof.
  split; [reflexivity |].
  apply (non_mapping_rejected protocol InsertUserResponse (VList []));
    [reflexivity | discriminate].
Defined.

Lemma sequence_for_scalar_fails_witness :
  resolve protocol (VDict user_id_list) ("user_id" ::: int)
    = Raise (AttributeError "__args__") /\
  raises (from_json protocol InsertUserResponse (VDict user_id_list)).
Proof.
  apply (sequence_for_scalar_fails protocol InsertUserResponse
           ("user_id" ::: int) user_id_list []);
    [left; reflexivity | reflexivity | reflexivity].
Defined.

Lemma nested_error_propagates_witness :
  from_json protocol Chat (VDict []) = Raise (KeyError "chat_id") /\
  from_json protocol GetChatsResponse (VDict chats_A_empty)
    = Raise (KeyError "chat_id").
Proof.
  split; [reflexivity |].
  apply (nested_error_propagates protocol GetChatsResponse Chat chats_A_empty []
           [] [] ("chats" ::: TList (TCls Chat)) [VDict chat_A_wire] []);
    [reflexivity | intros g [] | reflexivity | reflexivity | | reflexivity].
  intros x [<- | []]. eexists. reflexivity.
Defined.

Lemma class_not_on_wire_witness :
  from_json protocol GetChatsRequest (VDict user_id_5)
    = Ok (VObj GetChatsRequest [("user_id", VInt 5)]) /\
  from_json protocol InsertUserResponse (VDict user_id_5)
    = Ok (VObj InsertUserResponse [("user_id", VInt 5)]).
Proof.
  assert (H : from_json protocol GetChatsRequest (VDict user_id_5)
              = Ok (VObj GetChatsRequest [("user_id", VInt 5)])) by reflexivity.
  split; [exact H |].
  apply (class_not_on_wire protocol GetChatsRequest InsertUserResponse
           (VDict user_id_5)); [reflexivity | exact H].
Defined.

Lemma key_order_irrelevant_witness :
  from_json protocol Chat (VDict chat_A_swapped)
    = from_json protocol Chat (VDict chat_A_wire).
Proof.
  apply (key_order_irrelevant protocol Chat chat_A_wire chat_A_swapped).
  - repeat constructor; cbn; intuition discriminate.
  - apply perm_swap.
Defined.



Lemma conforming_decodes_witness :
  conforms protocol (VDict chat_A_loose) (TCls Chat) = true /\
  exists r, from_json protocol Chat (VDict chat_A_loose) = Ok r /\
            has_type protocol r (TCls Chat) = true.
Proof.
  split; [reflexivity |].
  apply (conforming_decodes protocol protocol_supported Chat (VDict chat_A_loose)).
  reflexivity.
Defined.

Lemma encode_decode_witness :
  canonical protocol chats_AB_wire (TCls GetChatsResponse) = true /\
  exists r, from_json protocol GetChatsResponse chats_AB_wire = Ok r /\
            has_type protocol r (TCls GetChatsResponse) = true /\
            to_json protocol r = Ok chats_AB_wire.
Proof.
  split; [reflexivity |].
  apply (encode_decode protocol protocol_supported GetChatsResponse chats_AB_wire).
  reflexivity.
Defined.

Lemma encoding_is_canonical_witness :
  to_json protocol chats_AB = Ok chats_AB_wire /\
  canonical protocol chats_AB_wire (TCls GetChatsResponse) = true.
Proof.
  split; [reflexivity |].
  apply (encoding_is_canonical protocol GetChatsResponse chats_AB chats_AB_wire);
    reflexivity.
Defined.

Lemma to_json_injective_witness :
  to_json protocol (chat 1 "A") = to_json protocol (VObj Chat chat_A_wire) /\
  chat 1 "A" = VObj Chat chat_A_wire.
Proof.
  split; [reflexivity |].
  apply (to_json_injective protocol protocol_supported Chat); reflexivity.
Defined.

Lemma flat_decode_accepts_witness :
  (exists r, from_json protocol User (VDict user_mistyped) = Ok r) <->
  (forall f, In f (fields protocol User) ->
     exists v, dict_get user_mistyped (f_name f) = Some v /\ primitive v = true).
Proof.
  apply (flat_decode_accepts protocol User user_mistyped).
  intros f [<- | [<- | []]]; [left | right]; reflexivity.
Defined.
